(** * assistant-recherche-web: crawler, chunker and vector store

    A shallow embedding of the Python sources
    - [modules/scraper - chunk normal.py] ([WebScraper],
      [SiteContentScraper]),
    - [modules/vector_store.py] ([VectorStore]),
    - [scrape_and_load] and the search handler of [app.py],
    - [utils/config.py],
    followed by the properties the specification states about them.

    Python values are modelled as follows.  A [str] is a list of Unicode
    code points, [len] is the length as an integer, an [int] is a [Z], a
    [set] of strings is a [gset], a [dict] with a fixed set of keys is a
    record and any other one a [gmap] or an association list.  A raised
    exception that is caught is the [None] of an [option], or a
    [Raise msg] where the message is used; one that leaves a function of
    the crawl is an outcome of that function ([Raises], [Raised]), as is
    a call that never comes back ([Blocked]).  The HTTP client, the XML
    parser, the headless browser, the clock, the vector engine and the
    language model are outside the repository: they are the fields of
    environment records, and every theorem quantifies over them.
    Logging and the progress callback, which is never set, do not take
    part in any result and are left out. *)

From stdpp Require Import base list strings gmap sorting.
From Stdlib Require Import ZArith NArith Ascii QArith DecimalString DecimalZ.

Local Open Scope Z_scope.

(** ** Python strings *)

Module Py.

Definition char := N.
Definition pystr := list char.

(** Code points of a UTF-8 byte sequence (sequences of one to three
    bytes, which covers the literals of the sources). *)
Fixpoint utf8_decode (bytes : list N) : pystr :=
  match bytes with
  | [] => []
  | b1 :: l1 =>
      if (b1 <? 128)%N then b1 :: utf8_decode l1
      else
        match l1 with
        | [] => []
        | b2 :: l2 =>
            if (b1 <? 224)%N
            then ((b1 - 192) * 64 + (b2 - 128))%N :: utf8_decode l2
            else
              match l2 with
              | [] => []
              | b3 :: l3 =>
                  ((b1 - 224) * 4096 + (b2 - 128) * 64 + (b3 - 128))%N
                    :: utf8_decode l3
              end
        end
  end.

(** A literal of the sources. *)
Definition py (s : string) : pystr :=
  utf8_decode (map N_of_ascii (String.list_ascii_of_string s)).

Arguments py : simpl never.

(** [str(n)] for an integer *)
Definition str_of_int (n : Z) : pystr :=
  py (DecimalString.NilZero.string_of_int (Z.to_int n)).

Definition len {A} (l : list A) : Z := Z.of_nat (length l).

(** [str.isspace] on one character, which is also what [\s] matches in
    a [str] pattern: U+0009..U+000D, U+001C..U+0020, U+0085, U+00A0,
    U+1680, U+2000..U+200A, U+2028, U+2029, U+202F, U+205F, U+3000. *)
Definition is_space (c : char) : bool :=
  (((9 <=? c) && (c <=? 13)) || ((28 <=? c) && (c <=? 32))
   || (c =? 133) || (c =? 160) || (c =? 5760)
   || ((8192 <=? c) && (c <=? 8202))
   || (c =? 8232) || (c =? 8233) || (c =? 8239) || (c =? 8287)
   || (c =? 12288))%N.

Definition space : char := 32%N.
Definition newline : char := 10%N.

Fixpoint lstrip (s : pystr) : pystr :=
  match s with
  | c :: s' => if is_space c then lstrip s' else s
  | [] => []
  end.

Definition rstrip (s : pystr) : pystr := rev (lstrip (rev s)).

(** [s.strip()] *)
Definition strip (s : pystr) : pystr := rstrip (lstrip s).

(** [s.startswith(p)] *)
Fixpoint startswith (s p : pystr) : bool :=
  match p, s with
  | [], _ => true
  | a :: p', b :: s' => (a =? b)%N && startswith s' p'
  | _ :: _, [] => false
  end.

Definition str_eqb (a b : pystr) : bool := bool_decide (a = b).

(** [x in l] for a list of strings *)
Definition str_in (x : pystr) (l : list pystr) : bool :=
  existsb (str_eqb x) l.

(** [sep.join(l)] for a one-character separator *)
Fixpoint join (sep : char) (l : list pystr) : pystr :=
  match l with
  | [] => []
  | [x] => x
  | x :: l' => x ++ sep :: join sep l'
  end.

End Py.

Import Py.

(** ** [SiteContentScraper.chunk_text] *)

Module Chunker.

(** [re.sub(r'\s+', ' ', text)]: every maximal run of whitespace becomes
    one space.  [in_run] says that the previous character was
    whitespace. *)
Fixpoint re_sub_ws (in_run : bool) (s : pystr) : pystr :=
  match s with
  | [] => []
  | c :: s' =>
      if is_space c then
        if in_run then re_sub_ws true s' else space :: re_sub_ws true s'
      else c :: re_sub_ws false s'
  end.

(** [re.sub(r'\s+', ' ', text).strip()] *)
Definition normalize (text : pystr) : pystr := strip (re_sub_ws false text).

(** [text.split('\n\n')]: cut at every occurrence of two newlines, left
    to right; [acc] is the piece being read, reversed. *)
Fixpoint split_blank_lines (acc : pystr) (s : pystr) : list pystr :=
  match s with
  | [] => [rev acc]
  | c1 :: s1 =>
      match s1 with
      | c2 :: s2 =>
          if ((c1 =? newline) && (c2 =? newline))%N
          then rev acc :: split_blank_lines [] s2
          else split_blank_lines (c1 :: acc) s1
      | [] => [rev (c1 :: acc)]
      end
  end.

Definition is_sentence_end (c : char) : bool :=
  ((c =? 46) || (c =? 33) || (c =? 63))%N.   (* . ! ? *)

(** [re.split(r'(?<=[.!?])\s+', paragraph)]: a separator is a maximal
    whitespace run that directly follows one of [. ! ?].  [acc] is the
    piece being read (reversed), [after_end] says that the previous
    character was one of [. ! ?], [in_sep] that a separator is being
    consumed. *)
Fixpoint re_split_sentences (acc : pystr) (after_end in_sep : bool)
    (s : pystr) : list pystr :=
  match s with
  | [] => [rev acc]
  | c :: s' =>
      if is_space c then
        if in_sep then re_split_sentences acc false true s'
        else if after_end then rev acc :: re_split_sentences [] false true s'
        else re_split_sentences (c :: acc) false false s'
      else re_split_sentences (c :: acc) (is_sentence_end c) false s'
  end.

Definition split_sentences (paragraph : pystr) : list pystr :=
  re_split_sentences [] false false paragraph.

(** The two local variables of the loop. *)
Record state := State { chunks : list pystr; current_chunk : pystr }.

Definition truthy (s : pystr) : bool :=
  match s with [] => false | _ => true end.

(** The body shared by the sentence loop (lines 258-263) and the
    paragraph branch (lines 265-270): extend the running chunk when the
    piece fits, otherwise flush it and restart from the piece. *)
Definition accumulate (chunk_size : Z) (st : state) (piece : pystr) : state :=
  if len (current_chunk st) + len piece <=? chunk_size then
    State (chunks st) (current_chunk st ++ space :: piece)
  else
    State (if truthy (current_chunk st)
           then chunks st ++ [strip (current_chunk st)]
           else chunks st)
          piece.

(** One iteration of [for paragraph in paragraphs]. *)
Definition step (chunk_size : Z) (st : state) (paragraph : pystr) : state :=
  if chunk_size * 2 <? len paragraph then
    fold_left (accumulate chunk_size) (split_sentences paragraph) st
  else accumulate chunk_size st paragraph.

(** The final flush (lines 272-276). *)
Definition finish (st : state) : list pystr :=
  if truthy (current_chunk st)
  then chunks st ++ [strip (current_chunk st)]
  else chunks st.

Definition chunk_text (chunk_size : Z) (text : pystr) : list pystr :=
  if truthy text then
    let text := normalize text in
    let paragraphs := split_blank_lines [] text in
    finish (fold_left (step chunk_size) paragraphs (State [] []))
  else [].

(** The simplified chunker of the refinement claim: the whole normalized
    text is the only paragraph. *)
Definition chunk_text_single_paragraph (chunk_size : Z) (text : pystr)
    : list pystr :=
  if truthy text then
    finish (step chunk_size (State [] []) (normalize text))
  else [].

(** *** Notions used to state what the chunker guarantees *)

(** A piece that starts and ends with a character that is not
    whitespace. *)
Definition left_ok (p : pystr) : Prop :=
  ∃ c, head p = Some c ∧ is_space c = false.

Definition right_ok (p : pystr) : Prop :=
  ∃ c, last p = Some c ∧ is_space c = false.

Definition good (p : pystr) : Prop := left_ok p ∧ right_ok p.

(** Text in which whitespace is the single space; [prev_space] forbids a
    space at the front. *)
Fixpoint single_spaced (prev_space : bool) (s : pystr) : Prop :=
  match s with
  | [] => True
  | c :: s' =>
      if is_space c then c = space ∧ prev_space = false ∧ single_spaced true s'
      else single_spaced false s'
  end.

(** The same, and the text does not end with a space; [prev_word] says
    that a character that is not a space comes before. *)
Fixpoint tidy_from (prev_word : bool) (s : pystr) : Prop :=
  match s with
  | [] => prev_word = true
  | c :: s' =>
      if is_space c then c = space ∧ prev_word = true ∧ tidy_from false s'
      else tidy_from true s'
  end.

(** The pieces of a list, each behind a space. *)
Definition spaced (l : list pystr) : pystr := concat (map (cons space) l).

Definition prepend (x : pystr) (l : list pystr) : list pystr :=
  match l with
  | p :: ps => (x ++ p) :: ps
  | [] => []
  end.

(** A passage within twice the size, or one of the pieces on its own. *)
Definition bounded (chunk_size : Z) (all : list pystr) (x : pystr) : Prop :=
  len x ≤ chunk_size * 2 ∨ x ∈ all.

(** The state after the pieces [consumed]: [o] is the running chunk
    without the space it may start with. *)
Definition acc_inv (chunk_size : Z) (all : list pystr) (st : state)
    (consumed : list pystr) : Prop :=
  ∃ o : option pystr,
    match o with
    | None => current_chunk st = []
    | Some g => good g ∧ (current_chunk st = g ∨ current_chunk st = space :: g)
    end
    ∧ Forall good (chunks st ++ option_list o)
    ∧ Forall (bounded chunk_size all) (chunks st ++ option_list o)
    ∧ spaced (chunks st ++ option_list o) = spaced consumed.

(** The pieces that one paragraph feeds to the accumulation. *)
Definition pieces_of (chunk_size : Z) (paragraph : pystr) : list pystr :=
  if chunk_size * 2 <? len paragraph then split_sentences paragraph
  else [paragraph].

End Chunker.

(** ** Values returned by [xmltodict.parse] *)

Module Xml.

#[local] Set Warnings "-register-all".

(** An element without content is [None], one with text only a [str],
    one with children or attributes a [dict] (in document order), and a
    child tag that occurs several times a [list]. *)
Inductive pyval :=
| PNone
| PStr (s : pystr)
| PDict (d : list (pystr * pyval))
| PList (l : list pyval).

Fixpoint is_substring (k s : pystr) : bool :=
  startswith s k ||
  match s with
  | [] => false
  | _ :: s' => is_substring k s'
  end.

Definition is_str (k : pystr) (v : pyval) : bool :=
  match v with PStr s => str_eqb k s | _ => false end.

(** [k in v]; [None] is the [TypeError] of [k in None]. *)
Definition contains (k : pystr) (v : pyval) : option bool :=
  match v with
  | PNone => None
  | PStr s => Some (is_substring k s)
  | PDict d => Some (existsb (λ kv, str_eqb k kv.1) d)
  | PList l => Some (existsb (is_str k) l)
  end.

Fixpoint assoc (k : pystr) (d : list (pystr * pyval)) : option pyval :=
  match d with
  | [] => None
  | (k', v) :: d' => if str_eqb k k' then Some v else assoc k d'
  end.

(** [v[k]] for a string [k]; [None] is the [KeyError] of a dict without
    the key and the [TypeError] of every other receiver. *)
Definition getitem (v : pyval) (k : pystr) : option pyval :=
  match v with
  | PDict d => assoc k d
  | _ => None
  end.

(** The elements [for x in v] visits: the items of a list, the keys of
    a dict, the characters of a string; [None] is not iterable. *)
Definition iter (v : pyval) : option (list pyval) :=
  match v with
  | PNone => None
  | PStr s => Some (map (λ c, PStr [c]) s)
  | PDict d => Some (map (λ kv, PStr kv.1) d)
  | PList l => Some l
  end.

(** [if not isinstance(urls, list): urls = [urls]] *)
Definition as_list (v : pyval) : list pyval :=
  match v with
  | PList l => l
  | _ => [v]
  end.

End Xml.

Import Xml.

(** ** Page discovery: [fetch_sitemap] and [discover_pages_via_crawling] *)

Module Discovery.

(** What [requests.get] returns: the status code and the body decoded
    as UTF-8 ([None] when [decode] raises). *)
Record response := Response { status_code : Z; content : option pystr }.

(** One use of Playwright, from [async with async_playwright() as p]
    to the end of that block.  [Some msg] stands for a raised exception
    whose [str] is [msg], [None] for a step that succeeds. *)
Record playwright := Playwright {
  entered : option pystr;        (* entering the [async with] *)
  launched : option pystr;       (* [chromium.launch] and [new_page] *)
  closed : nat → option pystr;   (* the n-th call of [browser.close()] *)
  exited : option pystr          (* leaving the [async with] *)
}.

(** The exception that leaves the [async with] block, if any: one that
    was raised inside is replaced by one raised on the way out. *)
Definition leaving (P : playwright) (raised : option pystr) : option pystr :=
  match exited P with
  | Some msg => Some msg
  | None => raised
  end.

(** The browser of one crawl.  [page_links url] is [page.goto(url)]
    followed by the reading of [window.location.origin] and of the
    [href] of every anchor; [None] stands for a raised exception. *)
Record browser := Browser {
  play : playwright;
  page_links : pystr → option (pystr * list pystr)
}.

(** The collaborators of discovery.  [None] stands for a raised
    exception.  [browsers n] is the browser that the n-th call of
    [discover_pages_via_crawling] starts. *)
Record env := Env {
  requests_get : pystr → option response;
  xmltodict_parse : pystr → option pyval;
  browsers : nat → browser
}.

(** What a discovery function hands to its caller: a boolean, the
    [None] of a function that ends without [return], or an exception
    that it lets through. *)
Inductive ret := Returns (b : bool) | Falls_through | Raises (msg : pystr).

Definition ret_truthy (r : ret) : bool :=
  match r with
  | Returns b => b
  | Falls_through => false
  | Raises _ => false
  end.

(** [if '?>' in content: content = content.split('?>', 1)[1]] *)
Fixpoint after_declaration (s : pystr) : option pystr :=
  match s with
  | [] => None
  | c1 :: s1 =>
      match s1 with
      | c2 :: s2 =>
          if ((c1 =? 63) && (c2 =? 62))%N then Some s2
          else after_declaration s1
      | [] => None
      end
  end.

Definition strip_declaration (s : pystr) : pystr :=
  default s (after_declaration s).

(** The test [if 'urlset' in doc and 'url' in doc['urlset']] and the
    value [doc['urlset']['url']] behind it: [None] when one of the
    steps raises, [Some None] when the test is false. *)
Definition urlset_urls (doc : pyval) : option (option pyval) :=
  has_urlset ← contains (py "urlset") doc;
  if has_urlset : bool then
    urlset ← getitem doc (py "urlset");
    has_url ← contains (py "url") urlset;
    if has_url : bool then
      urls ← getitem urlset (py "url");
      Some (Some urls)
    else Some None
  else Some None.

(** The loop [for url in urls] (lines 138-143 and 159-164), which
    appends to [self.pages] in place.  The boolean is [false] when an
    iteration raises ([url['loc']] or [loc.startswith] on something
    that is not a mapping or a string); the pages appended before that
    stay. *)
Fixpoint url_loop (base_url : pystr) (max_pages : Z) (urls : list pyval)
    (pages : list pystr) : list pystr * bool :=
  match urls with
  | [] => (pages, true)
  | url :: rest =>
      match getitem url (py "loc") with
      | Some (PStr loc) =>
          if startswith loc base_url && negb (str_in loc pages) then
            let pages := pages ++ [loc] in
            if max_pages <=? len pages then (pages, true)
            else url_loop base_url max_pages rest pages
          else url_loop base_url max_pages rest pages
      | _ => (pages, false)
      end
  end.

(** The body of the [try] of lines 122-145 for one child sitemap: what
    is raised inside is logged and dropped. *)
Definition sub_sitemap (E : env) (base_url : pystr) (max_pages : Z)
    (loc : pyval) (pages : list pystr) : list pystr :=
  match loc with
  | PStr loc =>
      match requests_get E loc with
      | Some sub_response =>
          if status_code sub_response =? 200 then
            match
              sub_content ← content sub_response;
              sub_sitemap ← xmltodict_parse E (strip_declaration sub_content);
              urlset_urls sub_sitemap
            with
            | Some (Some urls) =>
                (url_loop base_url max_pages (as_list urls) pages).1
            | _ => pages
            end
          else pages
      | None => pages
      end
  | _ => pages     (* [requests.get] of something that is not a URL *)
  end.

(** The loop [for sitemap_entry in ...] of line 120.  [None]: the
    lookup [sitemap_entry['loc']] of line 121 raised. *)
Fixpoint sitemap_loop (E : env) (base_url : pystr) (max_pages : Z)
    (entries : list pyval) (pages : list pystr) : option (list pystr) :=
  match entries with
  | [] => Some pages
  | sitemap_entry :: rest =>
      loc ← getitem sitemap_entry (py "loc");
      sitemap_loop E base_url max_pages rest
        (sub_sitemap E base_url max_pages loc pages)
  end.

(** The [try] of lines 114-168 on the parsed top-level document;
    [None] when it raises. *)
Definition parsed_sitemap (E : env) (base_url : pystr) (max_pages : Z)
    (content : pystr) (pages : list pystr) : option (ret * list pystr) :=
  sitemap ← xmltodict_parse E content;
  is_index ← contains (py "sitemapindex") sitemap;
  if is_index : bool then
    index ← getitem sitemap (py "sitemapindex");
    children ← getitem index (py "sitemap");
    entries ← iter children;
    pages ← sitemap_loop E base_url max_pages entries pages;
    Some (Returns (0 <? len pages), pages)
  else
    urls ← urlset_urls sitemap;
    match urls with
    | Some urls =>
        let '(pages, completed) :=
          url_loop base_url max_pages (as_list urls) pages in
        if completed : bool then Some (Returns (0 <? len pages), pages)
        else None
    | None => Some (Falls_through, pages)
    end.

(** *** Crawl-based discovery *)

Definition lower (c : char) : char :=
  if ((65 <=? c) && (c <=? 90))%N then (c + 32)%N else c.

Definition endswith_nocase (s suffix : pystr) : bool :=
  startswith (rev (map lower s)) (rev suffix).

Definition skipped_extensions : list pystr :=
  [py ".jpg"; py ".jpeg"; py ".png"; py ".gif"; py ".css"; py ".js";
   py ".pdf"; py ".zip"; py ".tar"].

(** The filter that [page.evaluate] runs in the browser (lines
    210-220). *)
Definition keep_link (origin href : pystr) : bool :=
  startswith href origin
  && negb (existsb (N.eqb 35) href)
  && negb (existsb (endswith_nocase href) skipped_extensions).

Record crawl_state := Crawl {
  pages : list pystr;
  visited : gset pystr;
  to_visit : list pystr
}.

(** The loop [for link in links] (lines 223-229). *)
Fixpoint link_loop (base_url : pystr) (max_pages : Z) (links : list pystr)
    (st : crawl_state) : crawl_state :=
  match links with
  | [] => st
  | link :: rest =>
      if bool_decide (link ∉ visited st) && startswith link base_url then
        let st := Crawl (pages st ++ [link]) ({[link]} ∪ visited st)
                        (to_visit st ++ [link]) in
        if max_pages <=? len (pages st) then st
        else link_loop base_url max_pages rest st
      else link_loop base_url max_pages rest st
  end.

(** The [while] loop of line 197; [None] when [fuel] iterations were
    not enough to leave it. *)
Fixpoint crawl_loop (fuel : nat) (E : browser) (base_url : pystr)
    (max_pages : Z) (st : crawl_state) : option crawl_state :=
  match to_visit st with
  | current_url :: rest =>
      if Z.of_nat (size (visited st)) <? max_pages then
        match fuel with
        | O => None
        | S fuel =>
            let st := Crawl (pages st) (visited st) rest in
            crawl_loop fuel E base_url max_pages
              match page_links E current_url with
              | Some (origin, hrefs) =>
                  link_loop base_url max_pages
                    (filter (λ h, keep_link origin h = true) hrefs) st
              | None => st
              end
        end
      else Some st
  | [] => Some st
  end.

(** The end of [discover_pages_via_crawling] (lines 235-237), or the
    exception that left the [async with] block. *)
Definition crawl_end (raised : option pystr) (pages : list pystr)
    : ret * list pystr :=
  match raised with
  | Some msg => (Raises msg, pages)
  | None => (Returns (0 <? len pages), pages)
  end.

(** [discover_pages_via_crawling] with the browser [B]; the loop is
    given [max_pages] iterations, which [crawl_terminates] shows to be
    enough.  The browser is started (lines 192-194) and closed (line
    233) outside every [try]: what is raised there leaves the function,
    with [self.pages] as it is then. *)
Definition discover_pages_via_crawling (B : browser) (base_url : pystr)
    (start_url : pystr) (max_pages : Z) : option (ret * list pystr) :=
  match entered (play B) with
  | Some msg => Some (Raises msg, [start_url])
  | None =>
      match launched (play B) with
      | Some msg => Some (crawl_end (leaving (play B) (Some msg)) [start_url])
      | None =>
          st ← crawl_loop (Z.to_nat max_pages) B base_url max_pages
                 (Crawl [start_url] {[start_url]} [start_url]);
          Some (crawl_end (leaving (play B) (closed (play B) 0)) (pages st))
      end
  end.

Definition sitemap_url (base_url : pystr) : pystr :=
  base_url ++ py "/sitemap.xml".

(** The n-th crawl of a run, from the site root. *)
Definition crawl (E : env) (n : nat) (base_url : pystr) (max_pages : Z)
    : option (ret * list pystr) :=
  discover_pages_via_crawling (browsers E n) base_url base_url max_pages.

(** A crawl that is started inside the outer [try] (lines 172 and 177):
    when it raises, the handler of line 178 starts another one. *)
Definition crawl_in_try (E : env) (base_url : pystr) (max_pages : Z)
    : option (ret * list pystr) :=
  match crawl E 0 base_url max_pages with
  | Some (Raises _, _) => crawl E 1 base_url max_pages
  | first => first
  end.

(** [fetch_sitemap], started with [self.pages = pages].  The three
    places that fall back to crawling are the handlers of lines 169,
    174 and 178; what the crawl of line 182 raises leaves the
    function. *)
Definition fetch_sitemap (E : env) (base_url : pystr) (max_pages : Z)
    (pages : list pystr) : option (ret * list pystr) :=
  match requests_get E (sitemap_url base_url) with
  | Some response =>
      if status_code response =? 200 then
        match content response with
        | Some content =>
            match parsed_sitemap E base_url max_pages
                    (strip_declaration content) pages with
            | Some result => Some result
            | None => crawl_in_try E base_url max_pages
            end
        | None => crawl E 0 base_url max_pages
        end
      else crawl_in_try E base_url max_pages
  | None => crawl E 0 base_url max_pages
  end.

(** The invariant of the set of discovered pages: every page is on the
    site and none is listed twice. *)
Definition discovered (base_url : pystr) (l : list pystr) : Prop :=
  Forall (λ p, startswith p base_url = true) l ∧ NoDup l.

(** The top-level sitemap document, when it is served with status 200
    and parses. *)
Definition top_level (E : env) (base_url : pystr) : option pyval :=
  response ← requests_get E (sitemap_url base_url);
  if status_code response =? 200 then
    content ← content response;
    xmltodict_parse E (strip_declaration content)
  else None.

(** A use of Playwright in which nothing raises: the browser starts, is
    closed at the first call and the block is left. *)
Definition runs (P : playwright) : Prop :=
  entered P = None ∧ launched P = None ∧ closed P 0 = None ∧ exited P = None.

(** What a crawl hands back: [True] when its browser ran, and an
    exception otherwise. *)
Definition crawl_ret (B : browser) (r : ret) : Prop :=
  match r with
  | Returns b => b = true ∧ runs (play B)
  | Raises _ => ¬ runs (play B)
  | Falls_through => False
  end.

(** The invariant of the crawl loop, and the quantity that each of its
    iterations decreases. *)
Definition crawl_inv (base : pystr) (st : crawl_state) : Prop :=
  discovered base (pages st)
  ∧ (∀ x, x ∈ pages st ↔ x ∈ visited st)
  ∧ length (pages st) = size (visited st).

Definition crawl_measure (max_pages : Z) (st : crawl_state) : nat :=
  (Z.to_nat (max_pages - len (pages st)) + length (to_visit st))%nat.

End Discovery.


(** ** [scrape_page] and [scrape_all_pages] *)

Module Orchestrator.

Import Discovery.

(** How a call ends: it returns, it raises an exception whose [str] is
    [msg], or it never comes back. *)
Inductive outcome (A : Type) :=
  | Returned (a : A)
  | Raised (msg : pystr)
  | Blocked.
Arguments Returned {A} a.
Arguments Raised {A} msg.
Arguments Blocked {A}.

(** A [<meta>] element: its attributes [name], [property] and [content],
    [None] where [getAttribute] gives [null]. *)
Record meta_tag := MetaTag {
  name_attr : option pystr;
  property_attr : option pystr;
  content_attr : option pystr
}.

(** What the browser gives for one page when [goto],
    [wait_for_load_state], [title] and the first [page.evaluate] succeed
    (lines 289-322): the title, the text of the main content ([None] for
    a JavaScript [null]), the result of the second [page.evaluate] and
    the [<meta>] elements that the third one reads ([None] when the call
    raises). *)
Record rendered := Rendered {
  r_title : pystr;
  r_main : option pystr;
  r_paragraphs : option pystr;
  r_meta : option (list meta_tag)
}.

Record env := Env {
  discovery : Discovery.env;
  page_play : pystr → playwright;      (* the browser of one page *)
  render : pystr → option rendered;    (* [None]: lines 289-322 raise *)
  page_clock : pystr → pystr;          (* [datetime.now()] in a page *)
  final_clock : pystr;                 (* [datetime.now()] at the end *)
  first_raised : list pystr → nat      (* of the exceptions that the
                                          tasks of [asyncio.gather] raise,
                                          the one that is raised first *)
}.

(** The attributes of [SiteContentScraper] that the crawl reads. *)
Record scraper := Scraper {
  base_url : pystr;
  domain_name : pystr;
  max_concurrent : Z;
  chunk_size : Z
}.

Record page_record := PageRecord {
  url : pystr;
  title : pystr;
  content : pystr;
  chunks : list pystr;
  chunk_count : Z;
  metadata : gmap pystr pystr
}.

Record crawl_result := CrawlResult {
  domain : pystr;
  cr_domain_name : pystr;
  total_pages : Z;
  timestamp : pystr;
  total_chunks : Z;
  cr_pages : list page_record
}.

(** [not content or len(content.strip()) < 50] *)
Definition too_short (main : option pystr) : bool :=
  match main with
  | None => true
  | Some c => negb (Chunker.truthy c) || (len (strip c) <? 50)
  end.

(** [a || b] on two attribute values: [a] unless it is [null] or
    empty. *)
Definition js_or (a b : option pystr) : option pystr :=
  match a with
  | Some (_ :: _) => a
  | _ => b
  end.

(** The names that the script of lines 335-352 keeps (lines 344-345). *)
Definition kept_name (name : pystr) : bool :=
  str_in name [py "description"; py "keywords"; py "author"]
  || startswith name (py "og:") || startswith name (py "twitter:").

(** One step of [metaTags.forEach] (lines 340-349). *)
Definition meta_step (metadata : gmap pystr pystr) (meta : meta_tag)
    : gmap pystr pystr :=
  match js_or (name_attr meta) (property_attr meta), content_attr meta with
  | Some name, Some content =>
      if Chunker.truthy name && Chunker.truthy content && kept_name name
      then <[name := content]> metadata
      else metadata
  | _, _ => metadata
  end.

(** The object that the script returns. *)
Definition page_metadata (tags : list meta_tag) : gmap pystr pystr :=
  fold_left meta_step tags ∅.

(** The body of the [try] of [scrape_page] up to line 352: [None] when it
    raises. *)
Definition extract (E : env) (page_url : pystr)
    : option (pystr * pystr * gmap pystr pystr) :=
  r ← render E page_url;
  page_content ← (if too_short (r_main r) then r_paragraphs r else r_main r);
  tags ← r_meta r;
  Some (r_title r, page_content, page_metadata tags).

(** [scrape_page].  The browser is started outside the [try] (lines
    283-285); inside, what is raised (also by the [browser.close()] of
    line 355) reaches the handler of line 378, which closes the browser
    and returns [None]. *)
Definition scrape_page (S : scraper) (E : env) (page_url : pystr)
    : outcome (option page_record) :=
  let P := page_play E page_url in
  let handler (n : nat) : outcome (option page_record) :=
    match closed P n with
    | Some msg => Raised msg
    | None => Returned None
    end in
  match entered P with
  | Some msg => Raised msg
  | None =>
      let inside :=
        match launched P with
        | Some msg => Raised msg
        | None =>
            match extract E page_url with
            | Some (page_title, page_content, meta) =>
                match closed P 0 with
                | None =>
                    let page_chunks :=
                      Chunker.chunk_text (chunk_size S) page_content in
                    Returned
                      (Some (PageRecord page_url page_title page_content
                               page_chunks (len page_chunks)
                               (meta ∪ {[ py "source" := domain_name S ]}
                                     ∪ {[ py "last_modified" :=
                                            page_clock E page_url ]}
                                     ∪ {[ py "language" := py "fr" ]})))
                | Some _ => handler 1%nat
                end
            | None => handler 0%nat
            end
        end in
      match exited P with
      | Some msg => Raised msg
      | None => inside
      end
  end.

(** [l[:n]] *)
Definition slice_to {A} (n : Z) (l : list A) : list A :=
  if 0 <=? n then take (Z.to_nat n) l
  else take (length l - Z.to_nat (- n)) l.

Definition sum_Z (l : list Z) : Z := fold_left Z.add l 0.

Definition raised_of {A} (o : outcome A) : option pystr :=
  match o with
  | Raised msg => Some msg
  | _ => None
  end.

Definition returned_of {A} (o : outcome A) : option A :=
  match o with
  | Returned a => Some a
  | _ => None
  end.

(** [asyncio.gather] on the tasks (line 408): the results in the order of the
    tasks; when tasks raise, the exception that is raised first; and
    no return while a task is blocked and none raises. *)
Definition gather {A} (first : list pystr → nat) (tasks : list (outcome A))
    : outcome (list A) :=
  match omap raised_of tasks with
  | msg :: msgs => Raised (default msg ((msg :: msgs) !! first (msg :: msgs)))
  | [] =>
      if forallb (λ o, bool_decide (is_Some (returned_of o))) tasks
      then Returned (omap returned_of tasks)
      else Blocked
  end.

(** [bounded_scrape] (lines 402-404) under [asyncio.Semaphore(n)]: with
    [n = 0] no task gets past [async with semaphore]. *)
Definition bounded_scrape (S : scraper) (E : env) (page_url : pystr)
    : outcome (option page_record) :=
  if max_concurrent S =? 0 then Blocked else scrape_page S E page_url.

(** [scrape_all_pages] on a fresh scraper.  The outer [None] is a
    discovery that ran out of iterations; [Returned None] is
    [return None].  [asyncio.Semaphore] raises [ValueError] for a
    negative value (line 400). *)
Definition scrape_all_pages (S : scraper) (E : env) (max_pages : Z)
    : option (outcome (option crawl_result)) :=
  '(found, pages) ← fetch_sitemap (discovery E) (base_url S) max_pages [];
  match found with
  | Raises msg => Some (Raised msg)
  | _ =>
      if negb (ret_truthy found) then Some (Returned None)
      else
        let pages :=
          if max_pages <? len pages then slice_to max_pages pages
          else pages in
        if max_concurrent S <? 0
        then Some (Raised (py "Semaphore initial value must be >= 0"))
        else
          Some match gather (first_raised E)
                       (map (bounded_scrape S E) pages) with
               | Returned all_results =>
                   let successful_results := omap id all_results in
                   Returned
                     (Some (CrawlResult (base_url S) (domain_name S)
                              (len successful_results) (final_clock E)
                              (sum_Z (map chunk_count successful_results))
                              successful_results))
               | Raised msg => Raised msg
               | Blocked => Blocked
               end
  end.

End Orchestrator.

(** ** [VectorStore.load_from_dict] and [VectorStore.rag_query] *)

Module VectorStore.

(** A raised exception carries its message, [str(e)]. *)
Inductive result (A : Type) := Ok (a : A) | Raise (msg : pystr).
Arguments Ok {A} a.
Arguments Raise {A} msg.

#[export] Instance result_ret : MRet result := λ A a, Ok a.
#[export] Instance result_bind : MBind result := λ A B f m,
  match m with
  | Ok a => f a
  | Raise msg => Raise msg
  end.

(** [l[i]] *)
Definition index {A} (l : list A) (i : nat) : result A :=
  match l !! i with
  | Some a => Ok a
  | None => Raise (py "list index out of range")
  end.

(** A page of the ingested dictionary; a missing key is [None]. *)
Record page := Page {
  url : option pystr;
  title : option pystr;
  content : option pystr;
  chunks : option (list pystr)
}.

(** The metadata of a stored document; [chunk_id] is absent from a
    whole-page document. *)
Record doc_meta := Meta {
  md_url : pystr;
  md_title : pystr;
  md_chunk_id : option Z;
  md_is_chunk : bool
}.

Record document := Document {
  doc_id : pystr;
  doc_text : pystr;
  doc_metadata : doc_meta
}.

(** What [collection.query] returns. *)
Record hit_meta := HitMeta { h_url : option pystr; h_title : option pystr }.

Record query_results := QueryResults {
  documents : list (list pystr);
  metadatas : list (list hit_meta);
  distances : option (list (list Q))     (* [None]: no such key *)
}.

(** The vector engine and the language model. *)
Record engine := Engine {
  collection_add : list document → option pystr;   (* [Some]: raises *)
  collection_query : pystr → Z → result query_results;
  chat_completion : pystr → pystr → result pystr
}.

(** *** Ingestion *)

(** The four accumulators of lines 97-100. *)
Record acc := Acc {
  a_documents : list pystr;
  a_metadatas : list doc_meta;
  a_ids : list pystr;
  doc_id_counter : Z
}.

Definition make_id (counter : Z) : pystr := py "doc_" ++ str_of_int counter.

Definition push (a : acc) (text : pystr) (m : doc_meta) : acc :=
  Acc (a_documents a ++ [text]) (a_metadatas a ++ [m])
      (a_ids a ++ [make_id (doc_id_counter a)]) (doc_id_counter a + 1).

(** [for j, chunk in enumerate(chunks)] (lines 108-118) *)
Fixpoint chunk_loop (p : page) (j : Z) (cs : list pystr) (a : acc) : acc :=
  match cs with
  | [] => a
  | chunk :: rest =>
      chunk_loop p (j + 1) rest
        (push a chunk (Meta (default [] (url p)) (default [] (title p))
                         (Some j) true))
  end.

(** One iteration of [for i, page in enumerate(...)] (lines 102-129). *)
Definition page_step (a : acc) (p : page) : acc :=
  let page_content := default [] (content p) in
  if 5000 <? len page_content then
    chunk_loop p 0 (default [] (chunks p)) a
  else
    push a page_content
      (Meta (default [] (url p)) (default [] (title p)) None false).

Definition build (pages : list page) : acc :=
  fold_left page_step pages (Acc [] [] [] 0).

(** [l[i:i+n]] for [0 <= i] *)
Definition slice {A} (i n : nat) (l : list A) : list A := take n (drop i l).

Fixpoint zip3 (ds : list pystr) (ms : list doc_meta) (ids : list pystr)
    : list document :=
  match ds, ms, ids with
  | d :: ds, m :: ms, i :: ids => Document i d m :: zip3 ds ms ids
  | _, _, _ => []
  end.

Definition batch_size : nat := 20.

(** [for i in range(0, len(documents), batch_size)] (lines 133-144):
    [starts] are the values of [i] still to come, [store] the documents
    the collection holds.  A failing [collection.add] ends the loop. *)
Fixpoint batch_loop (E : engine) (a : acc) (starts : list nat)
    (store : list document) : list document * option pystr :=
  match starts with
  | [] => (store, None)
  | i :: rest =>
      let batch := zip3 (slice i batch_size (a_documents a))
                        (slice i batch_size (a_metadatas a))
                        (slice i batch_size (a_ids a)) in
      match collection_add E batch with
      | Some msg => (store, Some msg)
      | None => batch_loop E a rest (store ++ batch)
      end
  end.

(** [range(0, n, step)] *)
Definition range_step (n step : nat) : list nat :=
  map (λ k, k * step)%nat (seq 0 (Nat.div (n + step - 1) step)).

(** [load_from_dict] on [data.get('pages', [])]: the collection
    afterwards, and the message of the exception it raises, if any. *)
Definition load_from_dict (E : engine) (pages : list page)
    (store : list document) : list document * option pystr :=
  let a := build pages in
  match batch_loop E a (range_step (length (a_documents a)) batch_size)
          store with
  | (store, Some msg) =>
      (store, Some (py "Erreur lors du chargement des données: " ++ msg))
  | (store, None) => (store, None)
  end.

(** The ingest rule in the words of the specification: the passages of
    a long page, each with its ordinal, or the content of a short one. *)
Definition page_documents (p : page) : list (pystr * doc_meta) :=
  let page_url := default [] (url p) in
  let page_title := default [] (title p) in
  if 5000 <? len (default [] (content p)) then
    imap (λ j chunk, (chunk, Meta page_url page_title (Some (Z.of_nat j)) true))
         (default [] (chunks p))
  else [(default [] (content p), Meta page_url page_title None false)].

(** ... numbered in page-then-chunk order. *)
Definition ingest_documents (pages : list page) : list document :=
  imap (λ k tm, Document (make_id (Z.of_nat k)) tm.1 tm.2)
       (concat (map page_documents pages)).

(** *** Query *)

Record source := Source {
  s_content : pystr;
  s_url : pystr;
  s_title : pystr;
  similarity : Q
}.

Record query_result := QueryResult { answer : pystr; sources : list source }.

(** [for i, doc in enumerate(results['documents'][0])] (lines
    166-172) *)
Fixpoint source_loop (results : query_results) (i : nat)
    (docs : list pystr) (acc : list source) : result (list source) :=
  match docs with
  | [] => Ok acc
  | doc :: rest =>
      metas ← index (metadatas results) 0;
      meta ← index metas i;
      score ← match distances results with
              | Some ds => row ← index ds 0; index row i
              | None => Ok 0%Q
              end;
      source_loop results (S i) rest
        (acc ++ [Source doc (default [] (h_url meta))
                   (default (py "Sans titre") (h_title meta)) score])
  end.

Definition system_prompt : pystr :=
  py "Vous êtes un assistant précis et concis. Répondez directement à la question en vous basant uniquement sur les informations fournies. Allez droit au but sans détails superflus. Si l'information n'est pas disponible dans le contexte, dites-le simplement.".

(** ["\n\n".join([f"Source {i+1}: {src['content']}" ...])] *)
Fixpoint join_blank (l : list pystr) : pystr :=
  match l with
  | [] => []
  | [x] => x
  | x :: l' => x ++ newline :: newline :: join_blank l'
  end.

Definition context_of (srcs : list source) : pystr :=
  join_blank
    (imap (λ i src, py "Source " ++ str_of_int (Z.of_nat i + 1) ++ py ": "
                      ++ s_content src) srcs).

Definition user_prompt (context query : pystr) : pystr :=
  py "Contexte:" ++ newline :: context ++ newline :: newline
    :: py "Question: " ++ query.

(** The [try] block of [rag_query] (lines 158-189). *)
Definition rag_query_body (E : engine) (query : pystr) (n_results : Z)
    : result query_result :=
  results ← collection_query E query n_results;
  docs ← index (documents results) 0;
  srcs ← source_loop results 0 docs [];
  reply ← chat_completion E system_prompt
            (user_prompt (context_of srcs) query);
  Ok (QueryResult reply srcs).

Definition apology : pystr :=
  py "Désolé, une erreur s'est produite lors du traitement de votre requête: ".

(** [rag_query]; [threshold] is a parameter of the method. *)
Definition rag_query (E : engine) (query : pystr) (n_results : Z)
    (threshold : Q) : query_result :=
  match rag_query_body E query n_results with
  | Ok r => r
  | Raise msg => QueryResult (apology ++ msg) []
  end.

(** The sources the search handler of [app.py] shows (line 266):
    [response["sources"][:3]]. *)
Definition displayed_sources (response : query_result) : list source :=
  take 3 (sources response).

(** The handler of the search button (lines 246-276). *)
Definition search_handler (E : engine) (question : pystr) (n_results : Z)
    (threshold : Q) : list source :=
  displayed_sources (rag_query E question n_results threshold).

(** The accumulators hold the documents [l], numbered from 0. *)
Definition holds (a : acc) (l : list (pystr * doc_meta)) : Prop :=
  a_documents a = l.*1
  ∧ a_metadatas a = l.*2
  ∧ a_ids a = imap (λ k _, make_id (Z.of_nat k)) l
  ∧ doc_id_counter a = Z.of_nat (length l).

End VectorStore.

(** ** [WebScraper.scrape_website] *)

Module Site.

Import Discovery Orchestrator.

(** [s.replace(old, new)] for a non-empty [old]: the occurrences of [old]
    are replaced from left to right; [skip] counts the characters of the
    occurrence just replaced that are still to be passed over. *)
Fixpoint replace_go (old new : pystr) (skip : nat) (s : pystr) : pystr :=
  match s with
  | [] => []
  | c :: s' =>
      match skip with
      | S k => replace_go old new k s'
      | O =>
          if startswith s old then new ++ replace_go old new (length old - 1) s'
          else c :: replace_go old new 0 s'
      end
  end.

Definition replace (old new s : pystr) : pystr := replace_go old new 0 s.

(** The two attributes of [urlparse(url)] that are read. *)
Record url_parts := UrlParts { scheme : pystr; netloc : pystr }.

(** [urlparse] raises [ValueError] on some addresses. *)
Record env := Env {
  crawl : Orchestrator.env;
  urlparse : pystr → VectorStore.result url_parts;
  clock : pystr                  (* [datetime.now().isoformat()] *)
}.

(** The attributes of [WebScraper] (lines 22-24). *)
Record web_scraper := WebScraper { ws_max_concurrent : Z; ws_chunk_size : Z }.

(** [SiteContentScraper.__init__] (lines 82-90). *)
Definition new_site_scraper (E : env) (base_url : pystr)
    (max_concurrent chunk_size : Z) : VectorStore.result scraper :=
  match urlparse E base_url with
  | VectorStore.Ok parsed_url =>
      VectorStore.Ok (Scraper base_url (replace (py "www.") [] (netloc parsed_url))
               max_concurrent chunk_size)
  | VectorStore.Raise msg => VectorStore.Raise msg
  end.

(** [if not url.startswith('http'): url = 'https://' + url] *)
Definition with_scheme (url : pystr) : pystr :=
  if startswith url (py "http") then url else py "https://" ++ url.

(** [f"{parsed_url.scheme}://{parsed_url.netloc}"] *)
Definition root_of (parsed_url : url_parts) : pystr :=
  scheme parsed_url ++ py "://" ++ netloc parsed_url.

(** [scrape_website] (lines 26-79); [None] only when discovery runs out
    of iterations.  Both handlers (lines 56 and 77) raise again what
    they catch. *)
Definition scrape_website (W : web_scraper) (E : env) (url : pystr)
    (max_pages : Z) : option (outcome crawl_result) :=
  let url := with_scheme url in
  match urlparse E url with
  | VectorStore.Raise msg => Some (Raised msg)
  | VectorStore.Ok parsed_url =>
      let base_url := root_of parsed_url in
      let domain_name := replace (py "www.") [] (netloc parsed_url) in
      match new_site_scraper E base_url (ws_max_concurrent W)
              (ws_chunk_size W) with
      | VectorStore.Raise msg => Some (Raised msg)
      | VectorStore.Ok scraper =>
          result ← scrape_all_pages scraper (crawl E) max_pages;
          Some match result with
               | Returned None =>
                   Returned (CrawlResult base_url domain_name 0 (clock E) 0 [])
               | Returned (Some result) => Returned result
               | Raised msg => Raised msg
               | Blocked => Blocked
               end
      end
  end.

End Site.

(** ** [scrape_and_load] of [app.py] *)

Module App.

Import VectorStore.

(** [s.split(sep)] for a separator of one character. *)
Fixpoint split_on (sep : char) (acc s : pystr) : list pystr :=
  match s with
  | [] => [rev acc]
  | c :: s' =>
      if (c =? sep)%N then rev acc :: split_on sep [] s'
      else split_on sep (c :: acc) s'
  end.

(** [s.split(sep)] for a separator of two characters [a b]. *)
Fixpoint split_on_pair (a b : char) (acc s : pystr) : list pystr :=
  match s with
  | [] => [rev acc]
  | c1 :: s1 =>
      match s1 with
      | c2 :: s2 =>
          if ((c1 =? a) && (c2 =? b))%N
          then rev acc :: split_on_pair a b [] s2
          else split_on_pair a b (c1 :: acc) s1
      | [] => [rev (c1 :: acc)]
      end
  end.

Definition slash : char := 47%N.
Definition dot : char := 46%N.
Definition underscore : char := 95%N.

(** [url.split('//')[-1].split('/')[0].replace('.', '_')] (line 109) *)
Definition collection_domain (url : pystr) : pystr :=
  let after_scheme := default [] (last (split_on_pair slash slash [] url)) in
  let host := default [] (head (split_on slash [] after_scheme)) in
  Site.replace [dot] [underscore] host.

(** The part of [st.session_state] that [scrape_and_load] reads and
    writes; the vector store in use is given by the name of its
    collection. *)
Record session := Session {
  vector_store : option pystr;
  collection_name : option pystr;
  scrape_progress : Z;
  scrape_status : pystr;
  openai_api_key : option pystr
}.

(** The collections of the vector engine, by name. *)
Abbreviation database := (gmap pystr (list document)).

Record env := Env {
  site : Site.env;
  engine : VectorStore.engine;
  getenv_api_key : option pystr;   (* [os.getenv("OPENAI_API_KEY")] *)
  connect : pystr → option (pystr * bool);
                                   (* the clients, the collection and the
                                      tokenizer of lines 32-84; [Some (msg,
                                      created)]: raises [msg], after the
                                      collection was created or before *)
  stamp : pystr                    (* [strftime('%Y%m%d%H%M%S')] *)
}.

(** [api_key or os.getenv("OPENAI_API_KEY")] *)
Definition effective_key (E : env) (api_key : option pystr) : option pystr :=
  match api_key with
  | Some k => if Chunker.truthy k then Some k else getenv_api_key E
  | None => getenv_api_key E
  end.

(** [get_or_create_collection] *)
Definition get_or_create (name : pystr) (db : database) : database :=
  <[name := default [] (db !! name)]> db.

(** [VectorStore.__init__] (lines 21-90): the collections afterwards and
    the message of the exception it raises, if any. *)
Definition vector_store_init (E : env) (name : pystr)
    (api_key : option pystr) (db : database) : database * option pystr :=
  match effective_key E api_key with
  | Some (_ :: _) =>
      match connect E name with
      | Some (msg, created) =>
          (if created : bool then get_or_create name db else db,
           Some (py "Erreur lors de l'initialisation: " ++ msg))
      | None => (get_or_create name db, None)
      end
  | _ => (db, Some (py "La clé API OpenAI n'est pas définie"))
  end.

(** The page dictionary that the crawl hands to the store. *)
Definition of_record (p : Orchestrator.page_record) : page :=
  Page (Some (Orchestrator.url p)) (Some (Orchestrator.title p))
       (Some (Orchestrator.content p)) (Some (Orchestrator.chunks p)).

Definition set_progress (status : pystr) (progress : Z) (s : session)
    : session :=
  Session (vector_store s) (collection_name s) progress status
          (openai_api_key s).

(** The handler of line 126. *)
Definition failed (msg : pystr) (s : session) : session :=
  set_progress (py "Erreur: " ++ msg) 0 s.

(** The scraper of the session (line 69). *)
Definition session_scraper : Site.web_scraper := Site.WebScraper 5 500.

(** The name given to the collection of a crawl (lines 109-110). *)
Definition new_collection_name (E : env) (url : pystr) : pystr :=
  collection_domain url ++ py "_" ++ stamp E.

(** [scrape_and_load] (lines 82-133): what it returns, the session and
    the collections afterwards; [None] when the call does not come
    back.  What [scrape_website] raises reaches the handler of line
    126. *)
Definition scrape_and_load (E : env) (s : session) (db : database)
    (url : pystr) (max_pages : Z)
    : option (option Orchestrator.crawl_result * session * database) :=
  run ← Site.scrape_website session_scraper (site E) url max_pages;
  match run with
  | Orchestrator.Blocked => None
  | Orchestrator.Raised msg => Some (None, failed msg s, db)
  | Orchestrator.Returned result =>
  if Orchestrator.total_pages result =? 0 then
    Some (None, set_progress (py "Échec : aucune page trouvée") 0 s, db)
  else
    let name := new_collection_name E url in
    let s := Session (vector_store s) (Some name) 60
               (py "Scraping terminé. Création de la base vectorielle...")
               (openai_api_key s) in
    match vector_store_init E name (openai_api_key s) db with
    | (db, Some msg) => Some (None, failed msg s, db)
    | (db, None) =>
        match load_from_dict (engine E)
                (of_record <$> Orchestrator.cr_pages result)
                (default [] (db !! name)) with
        | (store, Some msg) => Some (None, failed msg s, <[name := store]> db)
        | (store, None) =>
            Some (Some result,
                  Session (Some name) (Some name) 100
                    (py "Terminé avec succès!") (openai_api_key s),
                  <[name := store]> db)
        end
    end
  end.

End App.

(** ** [utils/config.py] *)

Module Config.

(** The values of the configuration. *)
Inductive value := VStr (s : pystr) | VInt (n : Z) | VNum (q : Q).

Abbreviation config := (gmap pystr value).

(** What [json.load] returns: an object, or another JSON value. *)
Inductive json := JObject (c : config) | JOther.

(** The file system and the JSON library.  [json_load text] is
    [open(CONFIG_FILE)] and [json.load] on a file that holds [text];
    [None] stands for a raised exception. *)
Record env := Env {
  json_load : pystr → option json;
  json_dump : config → option pystr;
  partial_dump : config → pystr;  (* what the file holds when [json.dump]
                                     raises after [open(..., "w")] *)
  can_write : bool;               (* [open(CONFIG_FILE, "w")] succeeds *)
  getenv_api_key : option pystr   (* [os.getenv("OPENAI_API_KEY")] *)
}.

(** The default configuration of lines 17-23. *)
Definition defaults (api_key : option pystr) : config :=
  list_to_map
    [(py "openai_api_key", VStr (default [] api_key));
     (py "max_pages", VInt 10);
     (py "chunk_size", VInt 500);
     (py "max_concurrent", VInt 5);
     (py "search_threshold", VNum (4 # 10))].

Definition default_config (E : env) : config := defaults (getenv_api_key E).

(** [save_config] (lines 30-38) on a file that holds [file] ([None]: no
    file): the file afterwards and the boolean returned. *)
Definition save_config (E : env) (c : config) (file : option pystr)
    : option pystr * bool :=
  if can_write E then
    match json_dump E c with
    | Some text => (Some text, true)
    | None => (Some (partial_dump E c), false)
    end
  else (file, false).

(** [load_config] (lines 7-28): the value returned and the file
    afterwards. *)
Definition load_config (E : env) (file : option pystr)
    : json * option pystr :=
  match file ≫= json_load E with
  | Some loaded => (loaded, file)
  | None =>
      (JObject (default_config E), (save_config E (default_config E) file).1)
  end.

(** [update_config] (lines 40-44); [None] is the [TypeError] of
    [config[key] = value] on a value that is not an object. *)
Definition update_config (E : env) (key : pystr) (v : value)
    (file : option pystr) : option (option pystr * bool) :=
  match load_config E file with
  | (JObject c, file) => Some (save_config E (<[key := v]> c) file)
  | (JOther, _) => None
  end.

End Config.

(** ** Further notions about passages and sitemaps *)

Module Passages.

Import Chunker.

(** A passage within the target size and one more character, or one of
    the pieces on its own. *)
Definition tight (chunk_size : Z) (all : list pystr) (x : pystr) : Prop :=
  len x ≤ chunk_size + 1 ∨ x ∈ all.

(** The state of the accumulation, for the target size. *)
Definition tight_inv (chunk_size : Z) (all : list pystr) (st : state) : Prop :=
  Forall (tight chunk_size all) (chunks st)
  ∧ (current_chunk st = [] ∨ tight chunk_size all (current_chunk st)).

End Passages.

Module UrlSet.

(** The [loc] of an entry of a sitemap, when it is a string. *)
Definition loc_of (entry : pyval) : option pystr :=
  match getitem entry (py "loc") with
  | Some (PStr loc) => Some loc
  | _ => None
  end.

(** The locations listed by the entries, in document order. *)
Definition locs_of (entries : list pyval) : list pystr := omap loc_of entries.

(** A child sitemap that cannot be used: the request raises or the status
    is not 200. *)
Definition unreachable (E : Discovery.env) (u : pystr) : Prop :=
  match Discovery.requests_get E u with
  | None => True
  | Some r => Discovery.status_code r ≠ 200
  end.

End UrlSet.

Module Fetch.

(** The pages that [scrape_all_pages] fetches: the discovered ones, cut at
    the cap (lines 393-394). *)
Definition to_fetch (max_pages : Z) (l : list pystr) : list pystr :=
  if max_pages <? len l then Orchestrator.slice_to max_pages l else l.

(** The entry that a [<meta>] element adds to the metadata of its page,
    if any: its name (the attribute [name] or, failing that, [property])
    and its content, both not empty, when the name is [description],
    [keywords] or [author] or starts with [og:] or [twitter:]. *)
Definition kept (meta : Orchestrator.meta_tag) : option (pystr * pystr) :=
  match Orchestrator.js_or (Orchestrator.name_attr meta)
          (Orchestrator.property_attr meta),
        Orchestrator.content_attr meta with
  | Some (n :: name), Some (c :: content) =>
      if Orchestrator.kept_name (n :: name)
      then Some (n :: name, c :: content)
      else None
  | _, _ => None
  end.

(** The names under which [scrape_page] records its own values. *)
Definition own_keys : list pystr :=
  [py "source"; py "last_modified"; py "language"].

End Fetch.

Module Answer.

Import VectorStore.

(** The sources of an answer in the words of the code: one per passage
    of the first row, with the address and the title of its metadata (or
    [''] and ['Sans titre']) and its distance. *)
Definition sources_of (docs : list pystr) (metas : list hit_meta)
    (ds : list Q) : list source :=
  zip_with (λ dm score, Source dm.1 (default [] (h_url dm.2))
                          (default (py "Sans titre") (h_title dm.2)) score)
           (zip docs metas) ds.

(** The bytes of a string are all below 128. *)
Definition ascii_only (s : string) : Prop :=
  Forall (λ b, (b < 128)%N) (map N_of_ascii (String.list_ascii_of_string s)).

End Answer.

(** ** Concrete sites *)

Module Examples.

Import Discovery.

Definition root : pystr := py "https://ex.com".

Definition loc_entry (u : pystr) : pyval := PDict [(py "loc", PStr u)].

(** [<urlset><url>...</url>...</urlset>] *)
Definition urlset (urls : pyval) : pyval :=
  PDict [(py "urlset", PDict [(py "url", urls)])].

(** [<sitemapindex><sitemap>...</sitemap>...</sitemapindex>] *)
Definition sitemapindex (children : pyval) : pyval :=
  PDict [(py "sitemapindex", PDict [(py "sitemap", children)])].

(** A use of Playwright in which nothing raises. *)
Definition working : playwright := Playwright None None (λ _, None) None.

(** A site that serves the documents [docs] (the body of a document is
    its own address, which the parser maps to the parsed value), answers
    404 elsewhere, and whose pages all carry the anchors [hrefs]; [play]
    is what the browser of the n-th crawl does. *)
Definition site_with (play : nat → playwright) (docs : list (pystr * pyval))
    (hrefs : list pystr) : env :=
  Env (λ u, if existsb (λ d, str_eqb u d.1) docs
            then Some (Response 200 (Some u))
            else Some (Response 404 (Some [])))
      (λ body, assoc body docs)
      (λ n, Browser (play n) (λ u, Some (root, hrefs))).

Definition site (docs : list (pystr * pyval)) (hrefs : list pystr) : env :=
  site_with (λ _, working) docs hrefs.

(** A browser that cannot be launched. *)
Definition no_browser : playwright :=
  Playwright None (Some (py "Executable doesn't exist")) (λ _, None) None.

Definition anchors : list pystr :=
  [py "https://ex.com/about"; py "https://ex.com/logo.PNG";
   py "https://ex.com/about#team"; py "https://other.org/";
   py "https://ex.com/contact"].

(** An index of two child sitemaps, the first with two pages, the second
    with a single one. *)
Definition two_sitemaps : env :=
  site [(py "https://ex.com/sitemap.xml",
          sitemapindex (PList [loc_entry (py "https://ex.com/s1.xml");
                               loc_entry (py "https://ex.com/s2.xml")]));
        (py "https://ex.com/s1.xml",
          urlset (PList [loc_entry (py "https://ex.com/a");
                         loc_entry (py "https://ex.com/b")]));
        (py "https://ex.com/s2.xml",
          urlset (loc_entry (py "https://ex.com/c")))]
       anchors.

(** An index whose children are [children], with one child sitemap of
    two pages. *)
Definition one_sitemap (children : pyval) : env :=
  site [(py "https://ex.com/sitemap.xml", sitemapindex children);
        (py "https://ex.com/s1.xml",
          urlset (PList [loc_entry (py "https://ex.com/a");
                         loc_entry (py "https://ex.com/b")]))]
       anchors.

(** A [sitemap.xml] that is well-formed XML of another vocabulary. *)
Definition foreign_sitemap : env :=
  site [(py "https://ex.com/sitemap.xml",
          PDict [(py "html", PDict [(py "body", PNone)])])]
       anchors.

(** A scraper with the default settings, and a crawl environment in
    which no page can be rendered. *)
Definition default_scraper : Orchestrator.scraper :=
  Orchestrator.Scraper root (py "ex.com") 5 500.

Definition unreachable_pages (d : env) : Orchestrator.env :=
  Orchestrator.Env d (λ _, working) (λ _, None)
    (λ _, py "2024-01-01T00:00:00") (py "2024-01-01T00:00:09") (λ _, 0%nat).

(** A vector engine that accepts every batch, answers every query with
    two passages at distances 0.1 and 0.9, and a model that replies. *)
Definition two_hits : VectorStore.query_results :=
  VectorStore.QueryResults
    [[py "alpha"; py "beta"]]
    [[VectorStore.HitMeta (Some (py "https://ex.com/a")) (Some (py "A"));
      VectorStore.HitMeta None None]]
    (Some [[1 # 10; 9 # 10]]).

Definition working_engine : VectorStore.engine :=
  VectorStore.Engine (λ _, None) (λ _ _, VectorStore.Ok two_hits)
    (λ _ _, VectorStore.Ok (py "La réponse.")).

(** The same with a vector engine that cannot be reached. *)
Definition engine_down : VectorStore.engine :=
  VectorStore.Engine (λ _, None)
    (λ _ _, VectorStore.Raise (py "Connection refused"))
    (λ _ _, VectorStore.Ok (py "La réponse.")).

(** A page of 6000 characters with 12 passages and one of 200 characters. *)
Definition long_page : VectorStore.page :=
  VectorStore.Page (Some (py "https://ex.com/long")) (Some (py "Long"))
    (Some (repeat 97%N (Z.to_nat 6000)))
    (Some (map (λ k, py "passage " ++ str_of_int (Z.of_nat k)) (seq 0 12))).

Definition short_page : VectorStore.page :=
  VectorStore.Page (Some (py "https://ex.com/short")) (Some (py "Short"))
    (Some (repeat 98%N 200)) (Some [repeat 98%N 200]).

(** A site whose [sitemap.xml] is a urlset of four locations, one of
    them listed twice and one on another site. *)
Definition plain_urls : pyval :=
  PList [loc_entry (py "https://ex.com/a"); loc_entry (py "https://ex.com/b");
         loc_entry (py "https://other.org/x"); loc_entry (py "https://ex.com/a");
         loc_entry (py "https://ex.com/c")].

Definition plain_urlset : env :=
  site [(py "https://ex.com/sitemap.xml", urlset plain_urls)] anchors.

(** A crawl environment in which every page renders: a title, a main
    content of three sentences and four meta tags: a language, two
    descriptions and a title for Open Graph. *)
Definition page_body : pystr :=
  py "Premier paragraphe de la page, assez long pour être retenu. " ++
  py "Deuxième phrase! Troisième phrase?".

Definition page_tags : list Orchestrator.meta_tag :=
  [Orchestrator.MetaTag (Some (py "language")) None (Some (py "en"));
   Orchestrator.MetaTag (Some (py "description")) None (Some (py "Une page"));
   Orchestrator.MetaTag None (Some (py "og:title")) (Some (py "Titre"));
   Orchestrator.MetaTag (Some (py "description")) None (Some (py "La page"))].

Definition rendering_pages (d : env) : Orchestrator.env :=
  Orchestrator.Env d (λ _, working)
    (λ u, Some (Orchestrator.Rendered (py "Titre") (Some page_body)
                  (Some (py "repli")) (Some page_tags)))
    (λ _, py "2024-01-01T00:00:00") (py "2024-01-01T00:00:09") (λ _, 0%nat).

(** The whole application on the site of two sitemaps: every page
    renders, the engine works, and a key is configured. *)
Definition ex_com : Site.env :=
  Site.Env (rendering_pages two_sitemaps)
    (λ _, VectorStore.Ok (Site.UrlParts (py "https") (py "ex.com")))
    (py "2024-01-01T00:00:10").

Definition application : App.env :=
  App.Env ex_com working_engine (Some (py "sk-test")) (λ _, None)
    (py "20240101000011").

Definition new_session : App.session := App.Session None None 0 [] None.

(** A configuration file system that can be written, with a JSON
    library that prints every configuration as the same text and reads
    every text as the defaults with [max_pages] set to 20. *)
Definition twenty_pages : Config.config :=
  <[py "max_pages" := Config.VInt 20]> (Config.defaults None).

Definition config_files : Config.env :=
  Config.Env (λ _, Some (Config.JObject twenty_pages)) (λ _, Some (py "{}"))
    (λ _, []) true None.

(** The same, where nothing parses. *)
Definition unreadable_files : Config.env :=
  Config.Env (λ _, None) (λ _, Some (py "{}")) (λ _, []) true None.

End Examples.

(** * Properties *)

(** ** The chunker *)

Section ChunkerFacts.

Import Chunker.

Lemma lstrip_Forall (P : char → Prop) s : Forall P s → Forall P (lstrip s).
Proof.
  induction 1 as [|c s Hc Hs IH]; simpl; [constructor|].
  destruct (is_space c); [exact IH | by constructor].
Qed.

Lemma strip_Forall (P : char → Prop) s : Forall P s → Forall P (strip s).
Proof.
  intros H. unfold strip, rstrip.
  apply Forall_rev, lstrip_Forall, Forall_rev, lstrip_Forall, H.
Qed.

(** After [re.sub(r'\s+', ' ', text)] the only whitespace left is the
    space itself. *)
Lemma re_sub_ws_chars b s :
  Forall (λ c, c = space ∨ is_space c = false) (re_sub_ws b s).
Proof.
  revert b. induction s as [|c s IH]; intros b; simpl; [constructor|].
  destruct (is_space c) eqn:Hc.
  - destruct b; [apply IH | constructor; [by left | apply IH]].
  - constructor; [by right | apply IH].
Qed.

Lemma normalize_no_newline text : Forall (λ c, c ≠ newline) (normalize text).
Proof.
  unfold normalize. apply strip_Forall.
  eapply Forall_impl; [apply re_sub_ws_chars|].
  intros c [-> | Hc]; [discriminate|].
  intros ->. discriminate.
Qed.

Lemma split_blank_lines_none acc s :
  Forall (λ c, c ≠ newline) s → split_blank_lines acc s = [rev acc ++ s].
Proof.
  revert acc. induction s as [|c1 s1 IH]; intros acc H.
  - simpl. by rewrite app_nil_r.
  - inversion H as [|? ? Hc1 Hs1]; subst.
    destruct s1 as [|c2 s2].
    + reflexivity.
    + change (split_blank_lines acc (c1 :: c2 :: s2))
        with (if ((c1 =? newline) && (c2 =? newline))%N
              then rev acc :: split_blank_lines [] s2
              else split_blank_lines (c1 :: acc) (c2 :: s2)).
      apply N.eqb_neq in Hc1. rewrite Hc1. simpl andb. cbv iota.
      rewrite IH by assumption. simpl. by rewrite <- app_assoc.
Qed.

(** The paragraph split of a normalized text is the text itself. *)
Lemma paragraphs_of_normalized text :
  split_blank_lines [] (normalize text) = [normalize text].
Proof. apply split_blank_lines_none, normalize_no_newline. Qed.

Lemma chunk_text_one_paragraph chunk_size text :
  chunk_text chunk_size text = chunk_text_single_paragraph chunk_size text.
Proof.
  unfold chunk_text, chunk_text_single_paragraph.
  by rewrite paragraphs_of_normalized.
Qed.

(** C10.  Whitespace normalisation removes every newline before the
    text is split on blank lines, so the split always yields exactly one
    paragraph, and [chunk_text] is extensionally equal to the chunker
    that treats the whole normalized text as its only paragraph: the
    paragraph loop runs once. *)
Theorem chunk_text_single_paragraph_eq (chunk_size : Z) (text : pystr) :
  length (split_blank_lines [] (normalize text)) = 1%nat
  ∧ chunk_text chunk_size text = chunk_text_single_paragraph chunk_size text.
Proof.
  split; [by rewrite paragraphs_of_normalized | apply chunk_text_one_paragraph].
Qed.

(** C9.  The empty string gives no passage, but a string of three
    spaces gives one passage, the empty string: the guard [if not text]
    is tested before the whitespace is collapsed. *)
Theorem chunk_text_blank_input :
  chunk_text 500 (py "") = [] ∧ chunk_text 500 (py "   ") = [ [] ].
Proof. split; vm_compute; reflexivity. Qed.

(** C3.  On a text made of a space, a newline and a tab the chunker
    returns an empty passage. *)
Theorem chunk_text_returns_empty_passage :
  [] ∈ chunk_text 500 [32; 10; 9]%N.
Proof. vm_compute. apply list_elem_of_here. Qed.

(** *** What the chunker guarantees *)

Lemma spaced_join l :
  spaced l = match l with [] => [] | _ => space :: join space l end.
Proof.
  induction l as [|x l IH]; [done|].
  unfold spaced in *. simpl. rewrite IH.
  destruct l; [by rewrite app_nil_r | done].
Qed.

Lemma join_spaced l : join space l = tail (spaced l).
Proof. rewrite spaced_join. by destruct l. Qed.

Lemma spaced_app l1 l2 : spaced (l1 ++ l2) = spaced l1 ++ spaced l2.
Proof. unfold spaced. by rewrite map_app, concat_app. Qed.

Lemma lstrip_left_ok p : left_ok p → lstrip p = p.
Proof. intros (c & Hh & Hc). destruct p; simplify_eq/=. by rewrite Hc. Qed.

Lemma rstrip_right_ok p : right_ok p → rstrip p = p.
Proof.
  intros (c & Hl & Hc). apply last_Some in Hl as [r ->].
  unfold rstrip. rewrite rev_unit. simpl. rewrite Hc. simpl.
  by rewrite rev_involutive.
Qed.

Lemma strip_good p : good p → strip p = p.
Proof.
  intros [Hl Hr]. unfold strip.
  by rewrite (lstrip_left_ok p Hl), (rstrip_right_ok p Hr).
Qed.

Lemma strip_space_good p : good p → strip (space :: p) = p.
Proof. intros Hp. unfold strip. simpl. by apply strip_good. Qed.

Lemma good_nonempty p : good p → p ≠ [].
Proof. intros [(c & Hh & _) _] ->. done. Qed.

Lemma good_len p : good p → 1 ≤ len p.
Proof.
  intros H. apply good_nonempty in H. unfold len. destruct p; [done|].
  simpl. lia.
Qed.

Lemma good_app a b : good a → good b → good (a ++ space :: b).
Proof.
  intros [(c & Hh & Hc) _] [_ (d & Hl & Hd)]. split.
  - exists c. split; [|done]. rewrite head_app. by rewrite Hh.
  - exists d. split; [|done]. rewrite last_app, last_cons. by rewrite Hl.
Qed.

(** **** The greedy accumulation *)

Section Accumulate.

Variable chunk_size : Z.
Variable all : list pystr.

Lemma acc_inv_finish st consumed :
  acc_inv chunk_size all st consumed →
  Forall good (finish st) ∧ Forall (bounded chunk_size all) (finish st)
  ∧ spaced (finish st) = spaced consumed.
Proof.
  intros (o & Hcur & Hg & Hb & Hs).
  assert (finish st = chunks st ++ option_list o) as ->; [|done].
  unfold finish. destruct o as [g|].
  - destruct Hcur as [Hgood [-> | ->]].
    + rewrite strip_good by done.
      pose proof (good_nonempty g Hgood). by destruct g.
    + by rewrite strip_space_good.
  - rewrite Hcur. simpl. by rewrite app_nil_r.
Qed.

Lemma accumulate_inv st consumed x :
  acc_inv chunk_size all st consumed → good x → x ∈ all →
  acc_inv chunk_size all (accumulate chunk_size st x) (consumed ++ [x]).
Proof.
  intros (o & Hcur & Hg & Hb & Hs) Hx Hin. unfold accumulate.
  assert (bounded chunk_size all x) as Hbx by by right.
  destruct (len (current_chunk st) + len x <=? chunk_size) eqn:Hfit.
  - apply Z.leb_le in Hfit. destruct o as [g|]; simpl in *.
    + destruct Hcur as [Hgood Hform].
      exists (Some (g ++ space :: x)). simpl.
      apply Forall_app in Hg as [Hg _]. apply Forall_app in Hb as [Hb _].
      rewrite !spaced_app in *. split; [|split; [|split]].
      * split; [by apply good_app|].
        destruct Hform as [-> | ->]; [by left | right; reflexivity].
      * apply Forall_app. split; [done|]. apply Forall_singleton.
        by apply good_app.
      * apply Forall_app. split; [done|]. apply Forall_singleton. left.
        pose proof (good_len g Hgood). pose proof (good_len x Hx).
        assert (len g ≤ len (current_chunk st)).
        { destruct Hform as [-> | ->]; unfold len; simpl; lia. }
        unfold len in *. rewrite length_app. simpl. lia.
      * rewrite <- Hs. unfold spaced. simpl.
        rewrite !app_nil_r, <- !app_assoc. simpl. done.
    + exists (Some x). simpl. rewrite Hcur, app_nil_r in *.
      rewrite !spaced_app, Hs. split; [split; [done | by right]|].
      split; [|split; [|done]]; apply Forall_app; split; try done;
        by apply Forall_singleton.
  - exists (Some x). simpl.
    assert ((if truthy (current_chunk st)
             then chunks st ++ [strip (current_chunk st)] else chunks st)
            = chunks st ++ option_list o) as ->.
    { destruct o as [g|]; simpl.
      - destruct Hcur as [Hgood [-> | ->]].
        + rewrite strip_good by done.
          pose proof (good_nonempty g Hgood). by destruct g.
        + by rewrite strip_space_good.
      - rewrite Hcur. simpl. by rewrite app_nil_r. }
    rewrite (spaced_app (chunks st ++ option_list o)), Hs, <- spaced_app.
    split; [split; [done | by left]|].
    split; [|split; [|done]]; apply Forall_app; split; try done;
      by apply Forall_singleton.
Qed.

Lemma fold_accumulate_inv xs : ∀ st consumed,
  acc_inv chunk_size all st consumed → Forall good xs → Forall (λ x, x ∈ all) xs →
  acc_inv chunk_size all (fold_left (accumulate chunk_size) xs st) (consumed ++ xs).
Proof.
  induction xs as [|x xs IH]; intros st consumed Hst Hg Hin; simpl.
  - by rewrite app_nil_r.
  - inversion Hg; inversion Hin; subst.
    rewrite (cons_middle x), app_assoc. apply IH; [|done..].
    by apply accumulate_inv.
Qed.

Lemma acc_inv_start : acc_inv chunk_size all (State [] []) [].
Proof. exists None. simpl. repeat split; constructor. Qed.

End Accumulate.

(** Greedy accumulation of good pieces, from the empty state: the
    passages are good, bounded, and joined by spaces they are the pieces
    joined by spaces. *)
Lemma greedy_chunks chunk_size pieces :
  Forall good pieces →
  Forall good (finish (fold_left (accumulate chunk_size) pieces (State [] [])))
  ∧ Forall (bounded chunk_size pieces)
      (finish (fold_left (accumulate chunk_size) pieces (State [] [])))
  ∧ join space (finish (fold_left (accumulate chunk_size) pieces (State [] [])))
    = join space pieces.
Proof.
  intros Hg.
  destruct (acc_inv_finish chunk_size pieces
              (fold_left (accumulate chunk_size) pieces (State [] [])) pieces)
    as (H1 & H2 & H3).
  { apply (fold_accumulate_inv chunk_size pieces pieces (State [] []) []);
      [apply acc_inv_start | done |].
    by apply Forall_forall. }
  by rewrite !join_spaced, H3.
Qed.

(** **** The sentence split *)

Lemma prepend_prepend x y l : prepend x (prepend y l) = prepend (x ++ y) l.
Proof. destruct l; [done|]. simpl. by rewrite app_assoc. Qed.

(** The piece being read is a prefix of the first piece returned. *)
Lemma re_split_sentences_acc s : ∀ acc after_end in_sep,
  re_split_sentences acc after_end in_sep s
  = prepend (rev acc) (re_split_sentences [] after_end in_sep s).
Proof.
  induction s as [|c s IH]; intros acc ae sep; simpl.
  - by rewrite app_nil_r.
  - destruct (is_space c), sep, ae; simpl;
      rewrite ?app_nil_r; try done; try apply IH;
      rewrite (IH (c :: acc)), (IH [c]), prepend_prepend; done.
Qed.

(** On tidy text the split returns a first piece [p], which continues the
    piece being read, and good pieces after it; joined by spaces they are
    the text. *)
Lemma re_split_sentences_tidy s : ∀ prev_word after_end in_sep,
  tidy_from prev_word s →
  (in_sep = true → prev_word = false) →
  ∃ p rest,
    re_split_sentences [] after_end in_sep s = p :: rest
    ∧ p ++ spaced rest = s
    ∧ Forall good rest
    ∧ (∀ c, last p = Some c → is_space c = false)
    ∧ (prev_word = false → left_ok p).
Proof.
  induction s as [|c s IH]; intros pw ae sep Htidy Hsep; simpl in *.
  - subst. exists [], []. repeat split; first [done | constructor].
  - destruct (is_space c) eqn:Hc.
    + destruct Htidy as (-> & -> & Htidy).
      destruct sep; [by specialize (Hsep eq_refl)|].
      destruct ae.
      * destruct (IH false false true Htidy) as (p & rest & -> & Heq & Hg & Hl & Hh);
          [done|].
        specialize (Hh eq_refl).
        exists [], (p :: rest). repeat split; try done.
        -- unfold spaced in *. simpl. by rewrite Heq.
        -- constructor; [|done]. split; [done|].
           destruct Hh as (h & Hhead & _).
           destruct (last p) as [d|] eqn:Hlast.
           ++ exists d. split; [done | by apply Hl].
           ++ apply last_None in Hlast. by subst.
      * rewrite re_split_sentences_acc.
        destruct (IH false false false Htidy) as (p & rest & -> & Heq & Hg & Hl & Hh);
          [done|].
        specialize (Hh eq_refl).
        exists (space :: p), rest. simpl. repeat split; try done.
        -- by rewrite Heq.
        -- intros d. rewrite last_cons.
           destruct Hh as (h & Hhead & _).
           destruct (last p) as [e|] eqn:Hlast; [intros [= <-]; by apply Hl|].
           apply last_None in Hlast. by subst.
    + rewrite re_split_sentences_acc.
      destruct (IH true (is_sentence_end c) false Htidy)
        as (p & rest & -> & Heq & Hg & Hl & _); [done|].
      exists (c :: p), rest. simpl. repeat split; try done.
      * by rewrite Heq.
      * intros d. rewrite last_cons.
        destruct (last p) as [e|]; intros [= <-]; [by apply Hl | done].
      * intros _. by exists c.
Qed.

Lemma tidy_last s : ∀ prev_word c,
  tidy_from prev_word s → last s = Some c → is_space c = false.
Proof.
  induction s as [|a s IH]; intros pw c Htidy Hlast; [done|].
  rewrite last_cons in Hlast. simpl in Htidy.
  destruct (last s) as [d|] eqn:Hs.
  - simplify_eq. destruct (is_space a).
    + destruct Htidy as (_ & _ & Htidy). by eapply IH.
    + by eapply IH.
  - simplify_eq. apply last_None in Hs. subst.
    destruct (is_space c); [|done]. by destruct Htidy as (_ & _ & ?).
Qed.

Lemma tidy_good s : s ≠ [] → tidy_from false s → good s.
Proof.
  intros Hne Htidy. split.
  - destruct s as [|c s]; [done|]. exists c. split; [done|]. simpl in Htidy.
    destruct (is_space c); [|done]. by destruct Htidy as (_ & ? & _).
  - destruct (last s) as [c|] eqn:Hlast.
    + exists c. split; [done|]. by eapply tidy_last.
    + by apply last_None in Hlast.
Qed.

Lemma split_sentences_tidy s :
  s ≠ [] → tidy_from false s →
  Forall good (split_sentences s) ∧ join space (split_sentences s) = s.
Proof.
  intros Hne Htidy. unfold split_sentences.
  destruct (re_split_sentences_tidy s false false false Htidy)
    as (p & rest & -> & Heq & Hg & Hl & Hh); [done|].
  specialize (Hh eq_refl). split.
  - constructor; [|done]. split; [done|].
    destruct Hh as (h & Hhead & _).
    destruct (last p) as [d|] eqn:Hlast.
    + exists d. split; [done | by apply Hl].
    + apply last_None in Hlast. by subst.
  - rewrite join_spaced. unfold spaced in *. simpl. done.
Qed.

(** **** The normalized text *)

Lemma re_sub_ws_single_spaced t : ∀ b, single_spaced b (re_sub_ws b t).
Proof.
  induction t as [|c t IH]; intros b; simpl; [done|].
  destruct (is_space c) eqn:Hc.
  - destruct b; [apply IH|]. simpl. split; [done|]. split; [done | apply IH].
  - simpl. rewrite Hc. apply IH.
Qed.

Lemma lstrip_single_spaced b s :
  single_spaced b s → single_spaced true (lstrip s).
Proof.
  destruct s as [|c s]; [done|]. simpl.
  destruct (is_space c) eqn:Hc.
  - intros (_ & _ & Hs). destruct s as [|d s]; [done|]. simpl in *.
    destruct (is_space d) eqn:Hd; [by destruct Hs as (_ & ? & _)|].
    simpl. by rewrite Hd.
  - intros Hs. simpl. by rewrite Hc.
Qed.

Lemma lstrip_snoc l c :
  lstrip (l ++ [c])
  = match lstrip l with
    | [] => if is_space c then [] else [c]
    | r => r ++ [c]
    end.
Proof.
  induction l as [|a l IH]; simpl; [done|].
  by destruct (is_space a).
Qed.

Lemma rstrip_cons c s :
  rstrip (c :: s)
  = match rstrip s with
    | [] => if is_space c then [] else [c]
    | r => c :: r
    end.
Proof.
  unfold rstrip. simpl. rewrite lstrip_snoc.
  destruct (lstrip (rev s)) as [|a r]; simpl.
  - by destruct (is_space c).
  - rewrite rev_unit. simpl.
    destruct (rev r ++ [a]) eqn:Heq; [|done].
    by apply app_eq_nil in Heq as [_ ?].
Qed.

Lemma rstrip_tidy s : ∀ prev_space,
  single_spaced prev_space s →
  rstrip s = [] ∨ tidy_from (negb prev_space) (rstrip s).
Proof.
  induction s as [|c s IH]; intros ps Hs; [by left|].
  rewrite rstrip_cons. simpl in Hs. destruct (is_space c) eqn:Hc.
  - destruct Hs as (-> & -> & Hs).
    destruct (IH true Hs) as [-> | Ht]; [by left|].
    destruct (rstrip s) as [|d r]; [by left|]. right. simpl. done.
  - destruct (IH false Hs) as [-> | Ht].
    + right. simpl. by rewrite Hc.
    + destruct (rstrip s) as [|d r]; right; simpl; by rewrite Hc.
Qed.

Lemma normalize_tidy text :
  normalize text = [] ∨ tidy_from false (normalize text).
Proof.
  unfold normalize, strip.
  apply (rstrip_tidy _ true), (lstrip_single_spaced false),
    re_sub_ws_single_spaced.
Qed.

(** **** The passages of [chunk_text] *)

Lemma step_pieces chunk_size st paragraph :
  step chunk_size st paragraph
  = fold_left (accumulate chunk_size) (pieces_of chunk_size paragraph) st.
Proof. unfold step, pieces_of. by destruct (_ <? _). Qed.

Lemma pieces_of_tidy chunk_size s :
  s ≠ [] → tidy_from false s →
  Forall good (pieces_of chunk_size s)
  ∧ join space (pieces_of chunk_size s) = s.
Proof.
  intros Hne Htidy. unfold pieces_of. destruct (_ <? _).
  - by apply split_sentences_tidy.
  - split; [|done]. by apply Forall_singleton, tidy_good.
Qed.

(** On a blank text the chunker returns nothing or one empty passage. *)
Lemma chunk_blank chunk_size :
  finish (step chunk_size (State [] []) []) = []
  ∨ finish (step chunk_size (State [] []) []) = [ [] ].
Proof.
  unfold step, accumulate, len. cbn.
  repeat case_match; first [by left | by right].
Qed.

(** Joined by single spaces, the passages are the normalized text. *)
Theorem chunk_text_join chunk_size text :
  join space (chunk_text chunk_size text) = normalize text.
Proof.
  rewrite chunk_text_one_paragraph.
  unfold chunk_text_single_paragraph.
  destruct text as [|c text]; [done|]. cbn [truthy].
  destruct (normalize_tidy (c :: text)) as [-> | Htidy].
  - by destruct (chunk_blank chunk_size) as [-> | ->].
  - destruct (decide (normalize (c :: text) = [])) as [Hnil | Hne].
    { rewrite Hnil in Htidy. done. }
    destruct (pieces_of_tidy chunk_size _ Hne Htidy) as [Hg Hj].
    rewrite step_pieces.
    by destruct (greedy_chunks chunk_size _ Hg) as (_ & _ & ->).
Qed.

(** When the text is not blank no passage is empty: each starts and ends
    with a character that is not whitespace. *)
Theorem chunk_text_passages_good chunk_size text :
  normalize text ≠ [] →
  Forall (λ p, p ≠ [] ∧ strip p = p) (chunk_text chunk_size text).
Proof.
  intros Hne.
  rewrite chunk_text_one_paragraph.
  unfold chunk_text_single_paragraph.
  destruct text as [|c text]; [done|]. cbn [truthy].
  destruct (normalize_tidy (c :: text)) as [? | Htidy]; [done|].
  destruct (pieces_of_tidy chunk_size _ Hne Htidy) as [Hg _].
  rewrite step_pieces.
  destruct (greedy_chunks chunk_size _ Hg) as (Hgood & _ & _).
  eapply Forall_impl; [exact Hgood|]. intros p Hp.
  split; [by apply good_nonempty | by apply strip_good].
Qed.

(** A passage is at most twice the chunk size long, or it is a single
    sentence of the normalized text. *)
Theorem chunk_text_bound chunk_size text p :
  p ∈ chunk_text chunk_size text →
  len p ≤ chunk_size * 2 ∨ p ∈ split_sentences (normalize text).
Proof.
  rewrite chunk_text_one_paragraph.
  unfold chunk_text_single_paragraph.
  destruct text as [|c text]; [by intros ?%elem_of_nil|]. cbn [truthy].
  destruct (normalize_tidy (c :: text)) as [-> | Htidy].
  - intros Hp. right.
    destruct (chunk_blank chunk_size) as [Heq | Heq]; rewrite Heq in Hp.
    + by apply elem_of_nil in Hp.
    + apply list_elem_of_singleton in Hp as ->. apply list_elem_of_here.
  - destruct (decide (normalize (c :: text) = [])) as [Hnil | Hne].
    { rewrite Hnil in Htidy. done. }
    destruct (pieces_of_tidy chunk_size _ Hne Htidy) as [Hg _].
    rewrite step_pieces.
    destruct (greedy_chunks chunk_size _ Hg) as (_ & Hb & _).
    intros Hp. apply (proj1 (Forall_forall _ _) Hb) in Hp as [Hp | Hp];
      [by left|].
    unfold pieces_of in Hp.
    destruct (chunk_size * 2 <? len (normalize (c :: text))) eqn:Hlong;
      [by right|].
    apply list_elem_of_singleton in Hp as ->. left. by apply Z.ltb_ge.
Qed.

End ChunkerFacts.

(** ** Discovery *)

Section DiscoveryFacts.

Import Discovery.

Lemma startswith_refl s : startswith s s = true.
Proof. induction s as [|c s IH]; simpl; [done|]. by rewrite N.eqb_refl. Qed.

Lemma str_in_elem x (l : list pystr) : str_in x l = true ↔ x ∈ l.
Proof.
  unfold str_in. rewrite existsb_exists. split.
  - intros (y & Hy & Heq). apply bool_decide_eq_true in Heq. subst.
    by apply list_elem_of_In.
  - intros H. exists x. split; [by apply list_elem_of_In|].
    by apply bool_decide_eq_true.
Qed.

Lemma len_snoc {A} (l : list A) x : len (l ++ [x]) = len l + 1.
Proof. unfold len. rewrite length_app. simpl. lia. Qed.

Lemma discovered_snoc base l x :
  discovered base l → startswith x base = true → x ∉ l →
  discovered base (l ++ [x]).
Proof.
  intros [Hp Hd] Hx Hnin. split.
  - apply Forall_app. split; [done | by constructor].
  - apply NoDup_app. split; [done|]. split.
    + intros y Hy Hy'. apply list_elem_of_singleton in Hy'. by subst.
    + apply NoDup_singleton.
Qed.

Lemma url_loop_discovered base max_pages urls l :
  discovered base l → discovered base (url_loop base max_pages urls l).1.
Proof.
  revert l. induction urls as [|url rest IH]; intros l Hl; [done|].
  simpl. destruct (getitem url (py "loc")) as [[|loc| |]|]; try done.
  destruct (startswith loc base && negb (str_in loc l)) eqn:Hadd.
  - apply andb_true_iff in Hadd as [Hpre Hnew].
    assert (discovered base (l ++ [loc])) as Hl'.
    { apply discovered_snoc; [done..|].
      intros Hin. apply str_in_elem in Hin. by rewrite Hin in Hnew. }
    destruct (max_pages <=? len (l ++ [loc])); [done | by apply IH].
  - by apply IH.
Qed.

(** The loop stops appending at the cap, or one page after its start when
    it starts at or above the cap. *)
Lemma url_loop_len base max_pages urls l :
  len (url_loop base max_pages urls l).1 ≤ Z.max max_pages (len l + 1).
Proof.
  revert l. induction urls as [|url rest IH]; intros l; [simpl; lia|].
  simpl. destruct (getitem url (py "loc")) as [[|loc| |]|]; simpl; try lia.
  destruct (startswith loc base && negb (str_in loc l)).
  - destruct (max_pages <=? len (l ++ [loc])) eqn:Hcap; simpl.
    + rewrite len_snoc. lia.
    + apply Z.leb_gt in Hcap. specialize (IH (l ++ [loc])).
      rewrite len_snoc in *. lia.
  - specialize (IH l). lia.
Qed.

Lemma sub_sitemap_discovered E base max_pages loc l :
  discovered base l → discovered base (sub_sitemap E base max_pages loc l).
Proof.
  intros Hl. unfold sub_sitemap.
  repeat case_match; try done. by apply url_loop_discovered.
Qed.

Lemma sitemap_loop_discovered E base max_pages entries l l' :
  sitemap_loop E base max_pages entries l = Some l' →
  discovered base l → discovered base l'.
Proof.
  revert l. induction entries as [|entry rest IH]; intros l Hrun Hl; simpl in Hrun.
  - by simplify_eq.
  - destruct (getitem entry (py "loc")) as [loc|]; [|done]. simpl in Hrun.
    eapply IH; [done|]. by apply sub_sitemap_discovered.
Qed.

Lemma parsed_sitemap_discovered E base max_pages body l r l' :
  parsed_sitemap E base max_pages body l = Some (r, l') →
  discovered base l → discovered base l'.
Proof.
  unfold parsed_sitemap. intros Hrun Hl.
  destruct (xmltodict_parse E body) as [doc|]; [|done]. simpl in Hrun.
  destruct (contains (py "sitemapindex") doc) as [[|]|]; [| |done]; simpl in Hrun.
  - destruct (getitem doc (py "sitemapindex")) as [idx|]; [|done]. simpl in Hrun.
    destruct (getitem idx (py "sitemap")) as [children|]; [|done]. simpl in Hrun.
    destruct (iter children) as [entries|]; [|done]. simpl in Hrun.
    destruct (sitemap_loop E base max_pages entries l) as [l1|] eqn:Hloop; [|done].
    simpl in Hrun. simplify_eq. by eapply sitemap_loop_discovered.
  - destruct (urlset_urls doc) as [[urls|]|]; [| |done]; simpl in Hrun.
    + pose proof (url_loop_discovered base max_pages (as_list urls) l Hl) as H.
      destruct (url_loop base max_pages (as_list urls) l) as [l1 [|]];
        [|done]. by simplify_eq.
    + by simplify_eq.
Qed.

(** *** The crawl *)

Lemma link_loop_inv base max_pages links st :
  crawl_inv base st → crawl_inv base (link_loop base max_pages links st).
Proof.
  revert st. induction links as [|link rest IH]; intros st Hst; [done|].
  simpl. destruct (bool_decide (link ∉ visited st) && startswith link base) eqn:Hadd.
  - apply andb_true_iff in Hadd as [Hnew Hpre].
    apply bool_decide_eq_true in Hnew.
    destruct Hst as (Hd & Hsame & Hsize).
    assert (crawl_inv base (Crawl (pages st ++ [link]) ({[link]} ∪ visited st)
                              (to_visit st ++ [link]))) as Hst'.
    { split; [|split]; simpl.
      - apply discovered_snoc; [done..|]. by rewrite Hsame.
      - intros x.
        rewrite elem_of_app, list_elem_of_singleton, Hsame, elem_of_union,
          elem_of_singleton. tauto.
      - rewrite length_app, size_union, size_singleton
          by (by apply disjoint_singleton_l).
        simpl. lia. }
    destruct (max_pages <=? _); [done | by apply IH].
  - by apply IH.
Qed.

Lemma link_loop_measure base max_pages links st :
  len (pages st) < max_pages →
  len (pages (link_loop base max_pages links st)) ≤ max_pages
  ∧ crawl_measure max_pages (link_loop base max_pages links st)
    = crawl_measure max_pages st.
Proof.
  revert st. induction links as [|link rest IH]; intros st Hlt;
    [simpl; split; [lia|done]|].
  simpl. destruct (bool_decide (link ∉ visited st) && startswith link base).
  - destruct (max_pages <=? len (pages st ++ [link])) eqn:Hcap.
    + apply Z.leb_le in Hcap. rewrite len_snoc in Hcap.
      unfold crawl_measure. simpl. rewrite len_snoc, length_app. simpl.
      split; lia.
    + apply Z.leb_gt in Hcap.
      destruct (IH (Crawl (pages st ++ [link]) ({[link]} ∪ visited st)
                      (to_visit st ++ [link])) Hcap) as [Hle Hm].
      split; [done|]. rewrite Hm. unfold crawl_measure. simpl.
      rewrite len_snoc in *. rewrite length_app. simpl. lia.
  - by apply IH.
Qed.

Lemma crawl_loop_inv fuel E base max_pages st st' :
  crawl_loop fuel E base max_pages st = Some st' →
  crawl_inv base st → len (pages st) ≤ Z.max 1 max_pages →
  crawl_inv base st' ∧ len (pages st') ≤ Z.max 1 max_pages.
Proof.
  revert st. induction fuel as [|fuel IH]; intros st Hrun Hst Hcap;
    simpl in Hrun; destruct (to_visit st) as [|current rest] eqn:Htv;
    try (by simplify_eq);
    destruct (Z.of_nat (size (visited st)) <? max_pages) eqn:Hgo;
    try (by simplify_eq).
  apply Z.ltb_lt in Hgo.
  assert (len (pages st) < max_pages) as Hlt.
  { destruct Hst as (_ & _ & Hsize). unfold len. rewrite Hsize. done. }
  assert (crawl_inv base (Crawl (pages st) (visited st) rest)) as Hst1 by done.
  destruct (page_links E current) as [[origin hrefs]|].
  - apply IH in Hrun; [done | by apply link_loop_inv |].
    pose proof (link_loop_measure base max_pages
      (filter (λ h, keep_link origin h = true) hrefs)
      (Crawl (pages st) (visited st) rest) Hlt) as [Hle _]. lia.
  - apply IH in Hrun; [done | done | simpl; lia].
Qed.

Lemma crawl_loop_enough_fuel fuel E base max_pages st :
  crawl_inv base st →
  to_visit st = [] ∨ max_pages ≤ len (pages st)
    ∨ (crawl_measure max_pages st ≤ fuel)%nat →
  is_Some (crawl_loop fuel E base max_pages st).
Proof.
  revert st. induction fuel as [|fuel IH]; intros st Hst Hm;
    simpl; destruct (to_visit st) as [|current rest] eqn:Htv; try done;
    destruct (Z.of_nat (size (visited st)) <? max_pages) eqn:Hgo; try done;
    apply Z.ltb_lt in Hgo;
    assert (len (pages st) < max_pages) as Hlt
      by (destruct Hst as (_ & _ & Hsize); unfold len; by rewrite Hsize);
    destruct Hm as [Hm | [Hm | Hm]]; try done; try lia.
  - unfold crawl_measure in Hm. rewrite Htv in Hm. simpl in Hm. lia.
  - assert (crawl_measure max_pages (Crawl (pages st) (visited st) rest) ≤ fuel)%nat
      as Hm1.
    { unfold crawl_measure in *. rewrite Htv in Hm. simpl in *. lia. }
    assert (crawl_inv base (Crawl (pages st) (visited st) rest)) as Hst1 by done.
    destruct (page_links E current) as [[origin hrefs]|].
    + apply IH; [by apply link_loop_inv|]. right. right.
      pose proof (link_loop_measure base max_pages
        (filter (λ h, keep_link origin h = true) hrefs)
        (Crawl (pages st) (visited st) rest) Hlt) as [_ Heq].
      by rewrite Heq.
    + apply IH; [done|]. by right; right.
Qed.

Lemma crawl_start_inv base : crawl_inv base (Crawl [base] {[base]} [base]).
Proof.
  split; [|split]; cbn [pages visited].
  - split; [|apply NoDup_singleton].
    constructor; [apply startswith_refl | constructor].
  - intros x. by rewrite list_elem_of_singleton, elem_of_singleton.
  - by rewrite size_singleton.
Qed.

Lemma crawl_end_pages raised l : (crawl_end raised l).2 = l.
Proof. by destruct raised. Qed.

(** The iterations given to the crawl loop are enough: crawl-based
    discovery always comes back. *)
Lemma crawl_terminates E base max_pages :
  is_Some (discover_pages_via_crawling E base base max_pages).
Proof.
  unfold discover_pages_via_crawling.
  destruct (entered (play E)); [by eexists|].
  destruct (launched (play E)); [by eexists|].
  destruct (crawl_loop_enough_fuel (Z.to_nat max_pages) E base max_pages
              (Crawl [base] {[base]} [base]) (crawl_start_inv base)) as [st Hst].
  - unfold crawl_measure, len. simpl.
    destruct (Z_le_gt_dec max_pages 1); [right; left; lia | right; right; lia].
  - rewrite Hst. by eexists.
Qed.

(** Crawl-based discovery keeps the invariant and, for a cap of at least
    one page, respects the cap, also when it raises. *)
Lemma crawl_discovered E base max_pages r l :
  discover_pages_via_crawling E base base max_pages = Some (r, l) →
  discovered base l ∧ len l ≤ Z.max 1 max_pages.
Proof.
  unfold discover_pages_via_crawling. intros Hrun.
  assert (discovered base [base] ∧ len [base] ≤ Z.max 1 max_pages) as Hstart.
  { split; [apply (crawl_start_inv base) | unfold len; simpl; lia]. }
  destruct (entered (play E)); [by simplify_eq|].
  destruct (launched (play E)).
  { pose proof (crawl_end_pages (leaving (play E) (Some p)) [base]) as Hl.
    simplify_eq. rewrite Hrun in Hl. simpl in Hl. by subst. }
  destruct (crawl_loop _ _ _ _ _) as [st|] eqn:Hloop; [|done].
  pose proof (crawl_end_pages (leaving (play E) (closed (play E) 0)) (pages st))
    as Hl.
  simpl in Hrun. simplify_eq. rewrite Hrun in Hl. simpl in Hl. subst.
  apply crawl_loop_inv in Hloop as [(Hd & _) Hcap];
    [done | apply crawl_start_inv | unfold len; simpl; lia].
Qed.

Lemma crawl_in_try_total E base max_pages :
  is_Some (crawl_in_try E base max_pages).
Proof.
  unfold crawl_in_try, crawl.
  destruct (crawl_terminates (browsers E 0) base max_pages) as [[r l] ->].
  destruct r; try by eexists. apply crawl_terminates.
Qed.

Lemma crawl_in_try_discovered E base max_pages r l :
  crawl_in_try E base max_pages = Some (r, l) →
  discovered base l ∧ len l ≤ Z.max 1 max_pages.
Proof.
  unfold crawl_in_try, crawl.
  destruct (discover_pages_via_crawling (browsers E 0) base base max_pages)
    as [[r0 l0]|] eqn:Hfirst; [|done].
  destruct r0; intros Hrun; simplify_eq;
    by eapply crawl_discovered.
Qed.

(** [fetch_sitemap] always comes back. *)
Lemma fetch_sitemap_total E base max_pages l :
  is_Some (fetch_sitemap E base max_pages l).
Proof.
  unfold fetch_sitemap, crawl.
  repeat case_match;
    try apply crawl_terminates; try apply crawl_in_try_total; by eexists.
Qed.

(** Whatever path discovery takes, every page it lists is on the site
    and no page is listed twice. *)
Lemma fetch_sitemap_discovered E base max_pages r l :
  fetch_sitemap E base max_pages [] = Some (r, l) → discovered base l.
Proof.
  unfold fetch_sitemap, crawl. intros Hrun.
  assert (discovered base []) as Hnil by (split; constructor).
  repeat case_match; simplify_eq;
    try (by eapply crawl_discovered);
    try (by eapply crawl_in_try_discovered);
    by eapply parsed_sitemap_discovered.
Qed.

(** Without a sitemap index, and for a cap of at least one page,
    discovery respects the cap. *)
Lemma fetch_sitemap_cap_without_index E base max_pages r l :
  1 ≤ max_pages →
  (∀ doc, top_level E base = Some doc →
          contains (py "sitemapindex") doc ≠ Some true) →
  fetch_sitemap E base max_pages [] = Some (r, l) →
  len l ≤ max_pages.
Proof.
  intros Hmax Hnoindex. unfold fetch_sitemap, top_level in *.
  assert (∀ r l, crawl E 0 base max_pages = Some (r, l)
                 → len l ≤ max_pages) as Hcrawl.
  { intros r' l' H. apply crawl_discovered in H as [_ H]. lia. }
  assert (∀ r l, crawl_in_try E base max_pages = Some (r, l)
                 → len l ≤ max_pages) as Hretry.
  { intros r' l' H. apply crawl_in_try_discovered in H as [_ H]. lia. }
  destruct (requests_get E (sitemap_url base)) as [resp|]; [|by apply Hcrawl].
  simpl in Hnoindex.
  destruct (status_code resp =? 200); [|by apply Hretry].
  destruct (content resp) as [body|]; [|by apply Hcrawl]. simpl in Hnoindex.
  destruct (parsed_sitemap E base max_pages (strip_declaration body) [])
    as [[r' l']|] eqn:Hparsed; [|by apply Hretry].
  intros ?; simplify_eq. unfold parsed_sitemap in Hparsed.
  destruct (xmltodict_parse E (strip_declaration body)) as [doc|]; [|done].
  simpl in Hparsed. specialize (Hnoindex doc eq_refl).
  destruct (contains (py "sitemapindex") doc) as [[|]|]; [done| |done].
  simpl in Hparsed.
  destruct (urlset_urls doc) as [[urls|]|]; [| |done]; simpl in Hparsed.
  - pose proof (url_loop_len base max_pages (as_list urls) []) as Hlen.
    destruct (url_loop base max_pages (as_list urls) []) as [l1 [|]];
      [|done]. simplify_eq. simpl in Hlen. unfold len in *. simpl in *. lia.
  - simplify_eq. unfold len. simpl. lia.
Qed.

(** A [<url>] that occurs once is handled like a list of one. *)
Lemma as_list_single_mapping d : as_list (PDict d) = as_list (PList [PDict d]).
Proof. reflexivity. Qed.

(** A top-level document that does not parse sends discovery to the
    crawl. *)
Lemma fetch_sitemap_malformed E base max_pages resp body l :
  requests_get E (sitemap_url base) = Some resp →
  status_code resp = 200 → content resp = Some body →
  xmltodict_parse E (strip_declaration body) = None →
  fetch_sitemap E base max_pages l = crawl_in_try E base max_pages.
Proof.
  intros Hget Hstatus Hbody Hparse. unfold fetch_sitemap, parsed_sitemap.
  by rewrite Hget, Hstatus, Hbody, Hparse.
Qed.

Lemma assoc_None_key k (d : list (pystr * pyval)) :
  assoc k d = None → existsb (λ kv, str_eqb k kv.1) d = false.
Proof.
  induction d as [|[k' v] d IH]; [done|]. simpl.
  destruct (str_eqb k k'); [done | exact IH].
Qed.

(** A top-level document that parses to a mapping with neither a
    [sitemapindex] nor a [urlset] entry ends [fetch_sitemap] without a
    [return]: nothing is crawled. *)
Lemma fetch_sitemap_unexpected_root E base max_pages d l :
  top_level E base = Some (PDict d) →
  assoc (py "sitemapindex") d = None → assoc (py "urlset") d = None →
  fetch_sitemap E base max_pages l = Some (Falls_through, l).
Proof.
  unfold top_level, fetch_sitemap, parsed_sitemap. intros Htop Hidx Hset.
  pose proof (λ k, assoc_None_key k d) as Hkeys.
  destruct (requests_get E (sitemap_url base)) as [resp|]; [|done].
  simpl in Htop. destruct (status_code resp =? 200); [|done].
  destruct (content resp) as [body|]; [|done]. simpl in Htop.
  rewrite Htop. simpl. rewrite (Hkeys _ Hidx). simpl.
  unfold urlset_urls. simpl. rewrite (Hkeys _ Hset). reflexivity.
Qed.

(** C1.  With an index of two child sitemaps and a cap of two pages,
    [fetch_sitemap] leaves three pages in [self.pages]: the [break] of line
    143 ends the loop over one child sitemap only, and the next child adds
    a page above the cap. *)
Theorem sitemap_index_exceeds_max_pages :
  fetch_sitemap Examples.two_sitemaps Examples.root 2 []
  = Some (Returns true, [py "https://ex.com/a"; py "https://ex.com/b";
                         py "https://ex.com/c"])
  ∧ ¬ len [py "https://ex.com/a"; py "https://ex.com/b";
            py "https://ex.com/c"] ≤ 2.
Proof. split; [vm_compute; reflexivity | vm_compute; by intros H]. Qed.

(** C2.  The same index with its only child given as a list yields the
    two pages of the child sitemap; given as a single mapping, the loop of
    line 120 runs over the keys of the mapping, line 121 raises, and the
    pages are those of the crawl. *)
Theorem single_child_index_differs :
  fetch_sitemap
    (Examples.one_sitemap (PList [Examples.loc_entry (py "https://ex.com/s1.xml")]))
    Examples.root 10 []
  = Some (Returns true, [py "https://ex.com/a"; py "https://ex.com/b"])
  ∧ fetch_sitemap
      (Examples.one_sitemap (Examples.loc_entry (py "https://ex.com/s1.xml")))
      Examples.root 10 []
    = Some (Returns true, [py "https://ex.com"; py "https://ex.com/about";
                           py "https://ex.com/contact"]).
Proof. split; vm_compute; reflexivity. Qed.

End DiscoveryFacts.

(** ** The crawl as a whole *)

Section OrchestratorFacts.

Import Discovery Orchestrator.

Lemma omap_all_none {A B} (f : A → option B) (l : list A) :
  (∀ x, x ∈ l → f x = None) → omap id (map f l) = [].
Proof.
  induction l as [|x l IH]; intros H; [done|]. simpl.
  rewrite (H x) by apply list_elem_of_here. simpl.
  apply IH. intros y Hy. apply H. by apply list_elem_of_further.
Qed.


(** The truncation of lines 393-394: for a cap that is not negative, the
    pages that are fetched respect it, whatever discovery listed. *)
Lemma fetched_pages_cap (max_pages : Z) (l : list pystr) :
  0 ≤ max_pages →
  len (if max_pages <? len l then slice_to max_pages l else l) ≤ max_pages.
Proof.
  intros Hmax. destruct (max_pages <? len l) eqn:Hlt.
  - unfold slice_to. destruct (0 <=? max_pages) eqn:Hpos.
    + unfold len. rewrite length_take. lia.
    + apply Z.leb_gt in Hpos. lia.
  - by apply Z.ltb_ge in Hlt.
Qed.

(** [scrape_all_pages] always comes to an end. *)
Lemma scrape_all_pages_total S E max_pages :
  is_Some (scrape_all_pages S E max_pages).
Proof.
  unfold scrape_all_pages.
  destruct (fetch_sitemap_total (discovery E) (base_url S) max_pages [])
    as [[found l] ->]. simpl.
  destruct found; try by eexists.
  destruct (negb (ret_truthy (Returns b))); [by eexists|].
  destruct (max_concurrent S <? 0); by eexists.
Qed.

(** When every task returns, [asyncio.gather] returns their results. *)
Lemma gather_returned {A} first (results : list A) :
  gather first (map Returned results) = Returned results.
Proof.
  unfold gather.
  assert (omap raised_of (map (@Returned A) results) = []) as ->
    by (induction results; [done | by simpl]).
  assert (forallb (λ o : outcome A, bool_decide (is_Some (returned_of o)))
            (map Returned results) = true) as ->.
  { induction results as [|x l IH]; [done|]. cbn [map forallb].
    apply andb_true_iff. split; [|exact IH].
    apply bool_decide_eq_true. by eexists. }
  f_equal. induction results as [|x l IH]; [done|]. simpl. by f_equal.
Qed.

(** Conversely the tasks of a [gather] that returns have all returned. *)
Lemma gather_returned_inv {A} first (tasks : list (outcome A)) results :
  gather first tasks = Returned results → tasks = map Returned results.
Proof.
  unfold gather. destruct (omap raised_of tasks); [|done].
  destruct (forallb _ tasks) eqn:Hall; [|done].
  intros [= <-]. induction tasks as [|o tasks IH]; [done|].
  simpl in Hall. apply andb_true_iff in Hall as [Ho Hall].
  apply bool_decide_eq_true in Ho as [a Ha].
  destruct o; simplify_eq. simpl. f_equal. by apply IH.
Qed.

(** A page whose browser works and whose navigation or extraction
    raises is a failed fetch: [scrape_page] returns [None]. *)
Lemma scrape_page_fetch_fails S E u :
  entered (page_play E u) = None → launched (page_play E u) = None →
  closed (page_play E u) 0 = None → exited (page_play E u) = None →
  extract E u = None →
  scrape_page S E u = Returned None.
Proof.
  intros He Hl Hc Hx Hex. unfold scrape_page.
  by rewrite He, Hl, Hc, Hx, Hex.
Qed.

(** A browser that cannot be started is not a failed fetch: the
    exception leaves [scrape_page], the browser being started outside
    its [try]. *)
Lemma scrape_page_launch_raises S E u msg :
  entered (page_play E u) = None → launched (page_play E u) = Some msg →
  exited (page_play E u) = None →
  scrape_page S E u = Raised msg.
Proof.
  intros He Hl Hx. unfold scrape_page. by rewrite He, Hl, Hx.
Qed.



(** C7.  The site serves, with status 200, a [sitemap.xml] that is
    well-formed XML without [sitemapindex] or [urlset].  [fetch_sitemap]
    ends without a [return] and with no page, although the crawl of the
    same site finds three, and [scrape_all_pages] gives up with [None]. *)
Theorem foreign_sitemap_is_not_crawled :
  fetch_sitemap Examples.foreign_sitemap Examples.root 10 []
  = Some (Falls_through, [])
  ∧ discover_pages_via_crawling (browsers Examples.foreign_sitemap 0)
      Examples.root Examples.root 10
    = Some (Returns true, [py "https://ex.com"; py "https://ex.com/about";
                           py "https://ex.com/contact"])
  ∧ scrape_all_pages Examples.default_scraper
      (Examples.unreachable_pages Examples.foreign_sitemap) 10
    = Some (Returned None).
Proof. repeat split; vm_compute; reflexivity. Qed.

End OrchestratorFacts.

(** ** The vector store *)

Section VectorStoreFacts.

Import VectorStore Answer.

(** *** Ingestion *)

Lemma push_holds a l text m :
  holds a l → holds (push a text m) (l ++ [(text, m)]).
Proof.
  intros (Hd & Hm & Hi & Hc). unfold push. repeat split; simpl.
  - by rewrite Hd, fmap_app.
  - by rewrite Hm, fmap_app.
  - rewrite Hi, Hc, imap_app. simpl. by rewrite Nat.add_0_r.
  - rewrite Hc, length_app. simpl. lia.
Qed.

Lemma chunk_loop_holds p cs : ∀ k a l,
  holds a l →
  holds (chunk_loop p (Z.of_nat k) cs a)
    (l ++ imap (λ j chunk, (chunk, Meta (default [] (url p))
                                        (default [] (title p))
                                        (Some (Z.of_nat (k + j))) true)) cs).
Proof.
  induction cs as [|chunk rest IH]; intros k a l Ha; simpl.
  - by rewrite app_nil_r.
  - replace (Z.of_nat k + 1) with (Z.of_nat (S k)) by lia.
    rewrite Nat.add_0_r.
    rewrite (cons_middle _ l), app_assoc.
    erewrite imap_ext; [apply IH, push_holds, Ha|].
    intros j c _. simpl. do 3 f_equal. lia.
Qed.

Lemma page_step_holds a l p :
  holds a l → holds (page_step a p) (l ++ page_documents p).
Proof.
  intros Ha. unfold page_step, page_documents.
  destruct (5000 <? len (default [] (content p))).
  - apply (chunk_loop_holds p _ 0%nat a l Ha).
  - by apply push_holds.
Qed.

Lemma fold_page_step_holds ps : ∀ a l,
  holds a l →
  holds (fold_left page_step ps a) (l ++ concat (map page_documents ps)).
Proof.
  induction ps as [|p ps IH]; intros a l Ha; simpl.
  - by rewrite app_nil_r.
  - rewrite app_assoc. by apply IH, page_step_holds.
Qed.

Lemma build_holds ps : holds (build ps) (concat (map page_documents ps)).
Proof. apply (fold_page_step_holds ps (Acc [] [] [] 0) []). by repeat split. Qed.

Lemma zip3_numbered (g : nat → pystr) (l : list (pystr * doc_meta)) :
  zip3 (l.*1) (l.*2) (imap (λ k _, g k) l)
  = imap (λ k tm, Document (g k) tm.1 tm.2) l.
Proof.
  revert g. induction l as [|[t m] l IH]; intros g; [done|].
  simpl. f_equal. apply (IH (g ∘ S)).
Qed.

Lemma zip3_take n ds ms ids :
  zip3 (take n ds) (take n ms) (take n ids) = take n (zip3 ds ms ids).
Proof.
  revert ds ms ids. induction n as [|n IH]; intros [|d ds] [|m ms] [|i ids];
    simpl; try done; try (by destruct n); try (by destruct n, ds);
    try (by destruct n, ds, ms).
  by rewrite IH.
Qed.

Lemma zip3_drop n ds ms ids :
  length ds = length ms → length ms = length ids →
  zip3 (drop n ds) (drop n ms) (drop n ids) = drop n (zip3 ds ms ids).
Proof.
  revert ds ms ids. induction n as [|n IH]; intros [|d ds] [|m ms] [|i ids];
    simpl; try done.
  intros ? ?. apply IH; lia.
Qed.

(** Consecutive slices of width [b] cover the list. *)
Lemma concat_slices {A} (b : nat) (l : list A) : ∀ m s,
  concat (map (λ i, slice i b l) (map (λ k, k * b)%nat (seq s m)))
  = take (m * b) (drop (s * b) l).
Proof.
  induction m as [|m IH]; intros s; simpl; [done|].
  rewrite IH. unfold slice.
  replace (S s * b)%nat with (s * b + b)%nat by lia.
  rewrite <- drop_drop. apply take_take_drop.
Qed.

Lemma range_step_covers {A} (b : nat) (l : list A) :
  (0 < b)%nat →
  concat (map (λ i, slice i b l) (range_step (length l) b)) = l.
Proof.
  intros Hb. unfold range_step. rewrite concat_slices. simpl.
  apply take_ge.
  pose proof (Nat.div_mod_eq (length l + b - 1) b) as Hdiv.
  pose proof (Nat.mod_upper_bound (length l + b - 1) b) as Hmod.
  nia.
Qed.

Lemma batch_loop_all_added E a starts : ∀ store,
  (∀ batch, collection_add E batch = None) →
  length (a_documents a) = length (a_metadatas a) →
  length (a_metadatas a) = length (a_ids a) →
  batch_loop E a starts store
  = (store ++ concat (map (λ i, slice i batch_size
                                  (zip3 (a_documents a) (a_metadatas a) (a_ids a)))
                          starts), None).
Proof.
  intros store Hadd H1 H2. revert store.
  induction starts as [|i rest IH]; intros store; simpl.
  - by rewrite app_nil_r.
  - rewrite Hadd, IH. unfold slice.
    by rewrite zip3_take, zip3_drop, app_assoc.
Qed.

(** *** Identifiers *)

Lemma utf8_decode_ascii l :
  Forall (λ b, (b < 128)%N) l → utf8_decode l = l.
Proof.
  induction 1 as [|b l Hb Hl IH]; [done|]. simpl.
  apply N.ltb_lt in Hb. by rewrite Hb, IH.
Qed.

Lemma N_of_ascii_inj a b : N_of_ascii a = N_of_ascii b → a = b.
Proof.
  intros H. rewrite <- (ascii_N_embedding a), <- (ascii_N_embedding b).
  by rewrite H.
Qed.

Lemma py_inj s1 s2 :
  ascii_only s1 → ascii_only s2 → py s1 = py s2 → s1 = s2.
Proof.
  unfold py, ascii_only. intros H1 H2 Heq.
  rewrite !utf8_decode_ascii in Heq by done.
  rewrite <- (String.string_of_list_ascii_of_string s1),
          <- (String.string_of_list_ascii_of_string s2).
  f_equal. revert Heq.
  generalize (String.list_ascii_of_string s1) (String.list_ascii_of_string s2).
  intros l1. induction l1 as [|a l1 IH]; intros [|b l2]; simpl; try done.
  intros [= Hab Hl]. f_equal; [by apply N_of_ascii_inj | by apply IH].
Qed.

Lemma string_of_uint_ascii u : ascii_only (NilEmpty.string_of_uint u).
Proof.
  unfold ascii_only.
  induction u; simpl; [constructor|..]; (constructor; [by vm_compute | done]).
Qed.

Lemma string_of_int_ascii d : ascii_only (NilZero.string_of_int d).
Proof.
  assert (∀ u, ascii_only (NilZero.string_of_uint u)) as Hu.
  { intros [| | | | | | | | | |]; try apply string_of_uint_ascii.
    unfold ascii_only. simpl. by repeat constructor. }
  destruct d as [u|u]; simpl; [apply Hu|].
  unfold ascii_only. simpl. constructor; [by vm_compute | apply Hu].
Qed.

Lemma to_int_not_nil z : Z.to_int z ≠ Decimal.Pos Decimal.Nil
                          ∧ Z.to_int z ≠ Decimal.Neg Decimal.Nil.
Proof.
  pose proof (DecimalZ.to_of (Z.to_int z)) as H.
  rewrite DecimalZ.of_to in H.
  split; intros Heq; rewrite Heq in H; discriminate.
Qed.

Lemma str_of_int_inj a b : str_of_int a = str_of_int b → a = b.
Proof.
  unfold str_of_int. intros H%py_inj; try apply string_of_int_ascii.
  destruct (to_int_not_nil a) as [Ha1 Ha2].
  destruct (to_int_not_nil b) as [Hb1 Hb2].
  pose proof (NilZero.isi _ Ha1 Ha2) as Ia.
  pose proof (NilZero.isi _ Hb1 Hb2) as Ib.
  rewrite H, Ib in Ia. injection Ia as Hab.
  rewrite <- (DecimalZ.of_to a), <- (DecimalZ.of_to b). by rewrite Hab.
Qed.

Lemma numbered_ids_distinct n :
  NoDup ((λ k, py "doc_" ++ str_of_int (Z.of_nat k)) <$> seq 0 n).
Proof.
  apply NoDup_fmap_2_strong; [|apply NoDup_seq].
  intros i j _ _ Hij. apply app_inv_head, str_of_int_inj in Hij. lia.
Qed.

Lemma ingest_documents_ids ps :
  doc_id <$> ingest_documents ps
  = (λ k, py "doc_" ++ str_of_int (Z.of_nat k))
      <$> seq 0 (length (ingest_documents ps)).
Proof.
  unfold ingest_documents. rewrite length_imap.
  generalize (concat (map page_documents ps)). intros l.
  rewrite fmap_imap.
  rewrite (imap_ext _ (λ k _, py "doc_" ++ str_of_int (Z.of_nat k)) l)
    by done.
  apply imap_seq_0.
Qed.

(** C4.  When the engine accepts every batch, [load_from_dict] adds to
    the collection exactly the documents of the ingest rule, in order: for
    a page of more than 5000 characters each precomputed passage, tagged
    [is_chunk = true] with its ordinal 0..n-1, for any other page its whole
    content once, tagged [is_chunk = false].  The k-th document added has
    the identifier [doc_k], k counting from 0 in page-then-chunk order: the
    identifiers grow by one from one document to the next and no two of
    them are equal. *)
Theorem load_from_dict_ingests E ps store :
  (∀ batch, collection_add E batch = None) →
  load_from_dict E ps store = (store ++ ingest_documents ps, None)
  ∧ doc_id <$> ingest_documents ps
    = (λ k, py "doc_" ++ str_of_int (Z.of_nat k))
        <$> seq 0 (length (ingest_documents ps))
  ∧ NoDup (doc_id <$> ingest_documents ps).
Proof.
  intros Hadd. split; [|split].
  - unfold load_from_dict.
    destruct (build_holds ps) as (Hd & Hm & Hi & _).
    assert (zip3 (a_documents (build ps)) (a_metadatas (build ps))
              (a_ids (build ps)) = ingest_documents ps) as Hzip.
    { rewrite Hd, Hm, Hi. apply zip3_numbered. }
    assert (length (a_documents (build ps)) = length (ingest_documents ps))
      as Hlen.
    { rewrite Hd. unfold ingest_documents.
      by rewrite length_fmap, length_imap. }
    rewrite batch_loop_all_added; [|done|..].
    + rewrite Hzip, Hlen, range_step_covers; [done|].
      unfold batch_size. lia.
    + by rewrite Hd, Hm, !length_fmap.
    + by rewrite Hm, Hi, length_fmap, length_imap.
  - apply ingest_documents_ids.
  - rewrite ingest_documents_ids. apply numbered_ids_distinct.
Qed.

Lemma load_from_dict_ingests_witness :
  (∀ batch, collection_add Examples.working_engine batch = None)
  ∧ load_from_dict Examples.working_engine
      [Examples.long_page; Examples.short_page] []
    = ([] ++ ingest_documents [Examples.long_page; Examples.short_page], None)
  ∧ doc_id <$> ingest_documents [Examples.long_page; Examples.short_page]
    = (λ k, py "doc_" ++ str_of_int (Z.of_nat k))
        <$> seq 0 (length (ingest_documents
                             [Examples.long_page; Examples.short_page]))
  ∧ NoDup (doc_id <$> ingest_documents
                        [Examples.long_page; Examples.short_page]).
Proof.
  split; [reflexivity|].
  apply (load_from_dict_ingests Examples.working_engine). reflexivity.
Defined.

(** The example of the specification: 12 passages of a page of 6000
    characters, then the content of a page of 200 characters. *)
Example ingest_long_and_short_page :
  let added := (load_from_dict Examples.working_engine
                  [Examples.long_page; Examples.short_page] []).1 in
  length added = 13%nat
  ∧ md_chunk_id ∘ doc_metadata <$> take 12 added
    = (λ k, Some (Z.of_nat k)) <$> seq 0 12
  ∧ md_is_chunk ∘ doc_metadata <$> added = replicate 12 true ++ [false]
  ∧ doc_id <$> drop 9 added
    = [py "doc_9"; py "doc_10"; py "doc_11"; py "doc_12"].
Proof. repeat split; vm_compute; reflexivity. Qed.

(** *** Query *)

Lemma source_loop_built results : ∀ docs i acc srcs,
  source_loop results i docs acc = Ok srcs →
  ∃ built,
    srcs = acc ++ built
    ∧ length built = length docs
    ∧ (∀ dss, distances results = Some dss →
         similarity <$> built
         = take (length docs) (drop i (default [] (dss !! 0%nat))))
    ∧ (distances results = None → Forall (λ s, similarity s = 0%Q) built).
Proof.
  induction docs as [|doc rest IH]; intros i acc srcs Hrun; simpl in Hrun.
  - simplify_eq. exists []. rewrite app_nil_r.
    repeat split; first [done | constructor].
  - unfold index in Hrun.
    destruct (metadatas results !! 0%nat) as [metas|]; [|done]. simpl in Hrun.
    destruct (metas !! i) as [meta|]; [|done]. simpl in Hrun.
    destruct (distances results) as [dss|] eqn:Hdist.
    + destruct (dss !! 0%nat) as [row|] eqn:Hrow; [|done]. simpl in Hrun.
      destruct (row !! i) as [score|] eqn:Hscore; [|done]. simpl in Hrun.
      apply IH in Hrun as (built & -> & Hlen & Hsim & _).
      eexists (_ :: built). split; [by rewrite <- app_assoc|].
      split; [simpl; lia|]. split; [|done].
      intros dss' [= <-]. rewrite fmap_cons, (Hsim dss eq_refl), Hrow.
      simpl. by rewrite (drop_S _ _ _ Hscore).
    + simpl in Hrun.
      apply IH in Hrun as (built & -> & Hlen & _ & Hzero).
      eexists (_ :: built). split; [by rewrite <- app_assoc|].
      split; [simpl; lia|]. split; [done|].
      intros _. constructor; [done | by apply Hzero].
Qed.

Lemma constant_sorted (c : Q) (l : list Q) :
  Forall (λ x, x = c) l → StronglySorted Qle l.
Proof.
  induction 1 as [|x l -> Hl IH]; constructor; [done|].
  eapply Forall_impl; [exact Hl|]. intros y ->. apply Qle_refl.
Qed.

Lemma segment_sorted (l : list Q) i n :
  StronglySorted Qle l → StronglySorted Qle (take n (drop i l)).
Proof.
  intros Hl. rewrite <- (take_drop i l) in Hl.
  apply StronglySorted_app_1_r in Hl.
  rewrite <- (take_drop n (drop i l)) in Hl.
  by apply StronglySorted_app_1_l in Hl.
Qed.

(** The sources of an answer are either none, or the first row the engine
    returned, one source per passage. *)
Lemma rag_query_sources E q k t :
  sources (rag_query E q k t) = []
  ∨ ∃ r docs,
      collection_query E q k = Ok r
      ∧ documents r !! 0%nat = Some docs
      ∧ source_loop r 0 docs [] = Ok (sources (rag_query E q k t)).
Proof.
  unfold rag_query.
  destruct (rag_query_body E q k) as [res|msg] eqn:Hbody; [|by left].
  right. unfold rag_query_body in Hbody.
  destruct (collection_query E q k) as [r|]; [|done].
  cbn [mbind result_bind] in Hbody. unfold index in Hbody.
  destruct (documents r !! 0%nat) as [docs|] eqn:Hdocs; [|done].
  cbn [mbind result_bind] in Hbody.
  destruct (source_loop r 0 docs []) as [srcs|] eqn:Hloop; [|done].
  cbn [mbind result_bind] in Hbody.
  destruct (chat_completion E _ _); [|done].
  cbn [mbind result_bind] in Hbody. simplify_eq.
  by exists r, docs.
Qed.

(** For a result count [k >= 0] and an engine that returns at most [k]
    passages in ascending order of distance, [rag_query] returns at most
    [k] sources in that order; its result does not depend on the
    threshold, and the search handler shows the first three sources of
    that result. *)
Lemma rag_query_returns_raw_top_k E q k t :
  0 ≤ k →
  (∀ r docs, collection_query E q k = Ok r →
             documents r !! 0%nat = Some docs → len docs ≤ k) →
  (∀ r dss ds, collection_query E q k = Ok r → distances r = Some dss →
               dss !! 0%nat = Some ds → StronglySorted Qle ds) →
  len (sources (rag_query E q k t)) ≤ k
  ∧ StronglySorted Qle (similarity <$> sources (rag_query E q k t))
  ∧ (∀ t', rag_query E q k t' = rag_query E q k t)
  ∧ search_handler E q k t = take 3 (sources (rag_query E q k t)).
Proof.
  intros Hk Hcount Hsorted.
  enough (len (sources (rag_query E q k t)) ≤ k
          ∧ StronglySorted Qle (similarity <$> sources (rag_query E q k t)))
    as [Hlen Hord] by done.
  destruct (rag_query_sources E q k t) as [-> | (r & docs & Hq & Hdocs & Hloop)].
  { split; [exact Hk | constructor]. }
  apply source_loop_built in Hloop as (built & Hb & Hlen & Hsim & Hzero).
  simpl in Hb. rewrite Hb. split.
  - specialize (Hcount r docs Hq Hdocs). unfold len in *. by rewrite Hlen.
  - destruct (distances r) as [dss|] eqn:Hdist.
    + rewrite (Hsim dss eq_refl). apply segment_sorted.
      destruct (dss !! 0%nat) as [ds|] eqn:Hrow; [|constructor].
      by eapply Hsorted.
    + apply (constant_sorted 0%Q). apply Forall_fmap.
      eapply Forall_impl; [by apply Hzero|]. done.
Qed.

Lemma rag_query_returns_raw_top_k_witness :
  len (sources (rag_query Examples.working_engine (py "question") 3 (4 # 10)))
    ≤ 3
  ∧ StronglySorted Qle
      (similarity
         <$> sources (rag_query Examples.working_engine (py "question") 3 (4 # 10)))
  ∧ (∀ t', rag_query Examples.working_engine (py "question") 3 t'
           = rag_query Examples.working_engine (py "question") 3 (4 # 10))
  ∧ search_handler Examples.working_engine (py "question") 3 (4 # 10)
    = take 3 (sources (rag_query Examples.working_engine (py "question") 3 (4 # 10))).
Proof.
  apply (rag_query_returns_raw_top_k Examples.working_engine (py "question")
           3 (4 # 10)).
  - lia.
  - intros r docs [= <-] [= <-]. vm_compute. by intros H.
  - intros r dss ds [= <-] [= <-] [= <-].
    repeat constructor. vm_compute. by intros H.
Defined.

(** C5.  The search handler is given the threshold 0.4 (the default of
    its slider) and passes it to [rag_query]; the engine returns two
    passages, at distances 0.1 and 0.9.  The handler shows both: a source
    whose score is below the threshold next to one whose score is above
    it, so nothing is excluded on account of the threshold, whichever
    way the score is read. *)
Theorem search_handler_shows_source_below_threshold :
  search_handler Examples.working_engine (py "question") 3 (4 # 10)
  = [Source (py "alpha") (py "https://ex.com/a") (py "A") (1 # 10);
     Source (py "beta") [] (py "Sans titre") (9 # 10)]
  ∧ (1 # 10 < 4 # 10)%Q ∧ (4 # 10 < 9 # 10)%Q
  ∧ ¬ (∀ s, s ∈ search_handler Examples.working_engine (py "question") 3
                  (4 # 10)
            → ¬ (similarity s < 4 # 10)%Q).
Proof.
  assert (search_handler Examples.working_engine (py "question") 3 (4 # 10)
          = [Source (py "alpha") (py "https://ex.com/a") (py "A") (1 # 10);
             Source (py "beta") [] (py "Sans titre") (9 # 10)]) as Hshown
    by (vm_compute; reflexivity).
  split_and!; [exact Hshown | reflexivity | reflexivity |].
  intros H.
  apply (H (Source (py "alpha") (py "https://ex.com/a") (py "A") (1 # 10))).
  - rewrite Hshown. apply list_elem_of_here.
  - reflexivity.
Qed.

(** Each failure inside the [try] block makes the block raise. *)
Lemma retrieval_failure_raises E q k msg :
  collection_query E q k = Raise msg → rag_query_body E q k = Raise msg.
Proof. intros H. unfold rag_query_body. by rewrite H. Qed.

Lemma generation_failure_raises E q k r docs srcs msg :
  collection_query E q k = Ok r →
  documents r !! 0%nat = Some docs →
  source_loop r 0 docs [] = Ok srcs →
  chat_completion E system_prompt (user_prompt (context_of srcs) q) = Raise msg →
  rag_query_body E q k = Raise msg.
Proof.
  intros Hq Hdocs Hloop Hchat. unfold rag_query_body, index.
  rewrite Hq. cbn [mbind result_bind]. rewrite Hdocs. cbn [mbind result_bind].
  rewrite Hloop. cbn [mbind result_bind]. by rewrite Hchat.
Qed.

Lemma apology_nonempty msg : apology ++ msg ≠ [].
Proof.
  assert (∃ c rest, apology = c :: rest) as (c & rest & ->)
    by (vm_compute; eauto).
  done.
Qed.

(** C6.  [rag_query] is a function, so it always returns; when the
    [try] block raises (the query of the collection with its embedding, the
    assembly of the sources, or the call of the model), the answer is the
    apology followed by the message of the exception, which is not empty,
    and there are no sources. *)
Theorem rag_query_failure E q k t msg :
  rag_query_body E q k = Raise msg →
  answer (rag_query E q k t) = apology ++ msg
  ∧ answer (rag_query E q k t) ≠ []
  ∧ sources (rag_query E q k t) = [].
Proof.
  intros Hbody. unfold rag_query. rewrite Hbody.
  cbn [answer sources]. split; [done|]. split; [apply apology_nonempty | done].
Qed.

Lemma rag_query_failure_witness :
  rag_query_body Examples.engine_down (py "question") 5
  = Raise (py "Connection refused")
  ∧ answer (rag_query Examples.engine_down (py "question") 5 0)
    = apology ++ py "Connection refused"
  ∧ answer (rag_query Examples.engine_down (py "question") 5 0) ≠ []
  ∧ sources (rag_query Examples.engine_down (py "question") 5 0) = [].
Proof.
  split; [reflexivity|].
  apply (rag_query_failure Examples.engine_down (py "question") 5 0).
  reflexivity.
Defined.

End VectorStoreFacts.

(** * Further properties *)

(** ** The chunker: target size and short texts *)

Section PassageFacts.

Import Chunker Passages.

Lemma length_lstrip_le s : (length (lstrip s) ≤ length s)%nat.
Proof.
  induction s as [|c s IH]; simpl; [done|].
  destruct (is_space c); simpl; lia.
Qed.

Lemma len_strip_le s : len (strip s) ≤ len s.
Proof.
  unfold len, strip, rstrip. rewrite length_rev.
  pose proof (length_lstrip_le (rev (lstrip s))) as H1.
  rewrite length_rev in H1. pose proof (length_lstrip_le s). lia.
Qed.

Lemma accumulate_tight chunk_size all st x :
  (∀ y, y ∈ all → strip y = y) → x ∈ all →
  tight_inv chunk_size all st →
  tight_inv chunk_size all (accumulate chunk_size st x).
Proof.
  intros Hall Hx [Hchunks Hcur]. unfold accumulate.
  destruct (len (current_chunk st) + len x <=? chunk_size) eqn:Hfit.
  - apply Z.leb_le in Hfit. split; [done|]. right. left. simpl.
    unfold len in *. rewrite length_app. simpl. lia.
  - split; [|right; by right]. simpl.
    destruct Hcur as [-> | Hcur]; [done|].
    destruct (truthy (current_chunk st)); [|done].
    apply Forall_app. split; [done|]. apply Forall_singleton.
    destruct Hcur as [Hlen | Hin].
    + left. pose proof (len_strip_le (current_chunk st)). lia.
    + right. by rewrite Hall.
Qed.

Lemma fold_accumulate_tight chunk_size all xs : ∀ st,
  (∀ y, y ∈ all → strip y = y) → Forall (λ x, x ∈ all) xs →
  tight_inv chunk_size all st →
  tight_inv chunk_size all (fold_left (accumulate chunk_size) xs st).
Proof.
  induction xs as [|x xs IH]; intros st Hall Hxs Hst; [done|].
  inversion Hxs; subst. simpl. apply IH; [done..|].
  by apply accumulate_tight.
Qed.

Lemma finish_tight chunk_size all st :
  (∀ y, y ∈ all → strip y = y) →
  tight_inv chunk_size all st → Forall (tight chunk_size all) (finish st).
Proof.
  intros Hall [Hchunks Hcur]. unfold finish.
  destruct Hcur as [-> | Hcur]; [done|].
  destruct (truthy (current_chunk st)); [|done].
  apply Forall_app. split; [done|]. apply Forall_singleton.
  destruct Hcur as [Hlen | Hin].
  - left. pose proof (len_strip_le (current_chunk st)). lia.
  - right. by rewrite Hall.
Qed.

(** Every passage has at most [chunk_size + 1] characters, unless it is
    one piece on its own: a sentence of a text longer than twice the chunk
    size, or the whole normalized text otherwise.  (The space that joins
    two pieces is not counted by the test of lines 258 and 265, hence the
    extra character.) *)
Theorem chunk_text_target_size chunk_size text :
  Forall (λ p, len p ≤ chunk_size + 1
               ∨ p ∈ pieces_of chunk_size (normalize text))
         (chunk_text chunk_size text).
Proof.
  rewrite chunk_text_one_paragraph. unfold chunk_text_single_paragraph.
  destruct text as [|c text]; [constructor|]. cbn [truthy].
  destruct (normalize_tidy (c :: text)) as [-> | Htidy].
  - assert ([] ∈ pieces_of chunk_size []) as Hin.
    { unfold pieces_of. destruct (_ <? _); apply list_elem_of_here. }
    destruct (chunk_blank chunk_size) as [-> | ->]; [constructor|].
    apply Forall_singleton. by right.
  - destruct (decide (normalize (c :: text) = [])) as [Hnil | Hne].
    { rewrite Hnil in Htidy. done. }
    destruct (pieces_of_tidy chunk_size _ Hne Htidy) as [Hg _].
    rewrite step_pieces.
    apply (finish_tight chunk_size (pieces_of chunk_size (normalize (c :: text)))).
    + intros y Hy. apply strip_good.
      by apply (proj1 (Forall_forall _ _) Hg).
    + apply fold_accumulate_tight.
      * intros y Hy. apply strip_good.
        by apply (proj1 (Forall_forall _ _) Hg).
      * by apply Forall_forall.
      * split; [constructor | by left].
Qed.

(** A text that is not blank and whose normalized form fits in one chunk
    gives exactly one passage, the normalized text. *)
Theorem chunk_text_short_text chunk_size text :
  normalize text ≠ [] → len (normalize text) ≤ chunk_size →
  chunk_text chunk_size text = [normalize text].
Proof.
  intros Hne Hfit. rewrite chunk_text_one_paragraph.
  unfold chunk_text_single_paragraph.
  destruct text as [|c text]; [done|]. cbn [truthy].
  destruct (normalize_tidy (c :: text)) as [? | Htidy]; [done|].
  pose proof (tidy_good _ Hne Htidy) as Hgood.
  pose proof (good_len _ Hgood) as Hlen.
  unfold step.
  destruct (chunk_size * 2 <? len (normalize (c :: text))) eqn:Hlong;
    [apply Z.ltb_lt in Hlong; lia|].
  unfold accumulate. cbn [current_chunk chunks].
  replace (len [] + len (normalize (c :: text)) <=? chunk_size) with true
    by (symmetry; apply Z.leb_le; unfold len in *; simpl; lia).
  unfold finish. cbn [current_chunk chunks truthy app].
  by rewrite strip_space_good.
Qed.

Lemma chunk_text_short_text_witness :
  normalize (py "  Bonjour   le monde. ") ≠ []
  ∧ chunk_text 500 (py "  Bonjour   le monde. ") = [py "Bonjour le monde."].
Proof.
  split; [by vm_compute|].
  rewrite (chunk_text_short_text 500 (py "  Bonjour   le monde. "));
    [vm_compute; reflexivity | by vm_compute | by vm_compute].
Defined.

Lemma chunk_text_bound_witness :
  py "Cc dd. E." ∈ chunk_text 8 (py "Aa. Bb! Cc dd. E. ffffffffffffff")
  ∧ (len (py "Cc dd. E.") ≤ 8 * 2
     ∨ py "Cc dd. E."
       ∈ split_sentences (normalize (py "Aa. Bb! Cc dd. E. ffffffffffffff"))).
Proof.
  assert (py "Cc dd. E." ∈ chunk_text 8 (py "Aa. Bb! Cc dd. E. ffffffffffffff"))
    as Hin.
  { vm_compute. apply list_elem_of_further, list_elem_of_here. }
  split; [exact Hin|].
  exact (chunk_text_bound 8 _ _ Hin).
Defined.

Lemma chunk_text_passages_good_witness :
  normalize (py "Aa. Bb! Cc dd. E. ffffffffffffff") ≠ []
  ∧ Forall (λ p, p ≠ [] ∧ strip p = p)
      (chunk_text 8 (py "Aa. Bb! Cc dd. E. ffffffffffffff")).
Proof.
  split; [by vm_compute|].
  apply (chunk_text_passages_good 8). by vm_compute.
Defined.

End PassageFacts.

(** ** Discovery: order, completeness, fallback *)

Section DiscoveryOrderFacts.

Import Discovery UrlSet.

Lemma url_loop_sublist base max_pages urls : ∀ l,
  ∃ k, (url_loop base max_pages urls l).1 = l ++ k
       ∧ k `sublist_of` locs_of urls.
Proof.
  induction urls as [|url rest IH]; intros l.
  - exists []. by rewrite app_nil_r.
  - simpl. unfold locs_of. simpl. unfold loc_of at 1.
    destruct (getitem url (py "loc")) as [[|loc| |]|]; simpl;
      try (exists []; rewrite app_nil_r; split; [done | apply sublist_nil_l]).
    destruct (startswith loc base && negb (str_in loc l)).
    + destruct (max_pages <=? len (l ++ [loc])).
      * exists [loc]. split; [done|]. apply sublist_skip, sublist_nil_l.
      * destruct (IH (l ++ [loc])) as (k & -> & Hk).
        exists (loc :: k). rewrite <- app_assoc. split; [done|].
        by apply sublist_skip.
    + destruct (IH l) as (k & -> & Hk). exists k. split; [done|].
      by apply sublist_cons.
Qed.

Lemma url_loop_completes base max_pages urls : ∀ l,
  Forall (λ e, is_Some (loc_of e)) urls →
  (url_loop base max_pages urls l).2 = true.
Proof.
  induction urls as [|url rest IH]; intros l Hwf; [done|].
  inversion Hwf as [|? ? [loc Hloc] Hrest]; subst. simpl.
  unfold loc_of in Hloc.
  destruct (getitem url (py "loc")) as [[|loc'| |]|]; try done.
  destruct (startswith loc' base && negb (str_in loc' l)); [|by apply IH].
  destruct (max_pages <=? len (l ++ [loc'])); [done | by apply IH].
Qed.

(** Below the cap the loop leaves no on-site location out. *)
Lemma url_loop_all base max_pages urls : ∀ l loc,
  Forall (λ e, is_Some (loc_of e)) urls →
  len (url_loop base max_pages urls l).1 < max_pages →
  loc ∈ l ∨ (loc ∈ locs_of urls ∧ startswith loc base = true) →
  loc ∈ (url_loop base max_pages urls l).1.
Proof.
  induction urls as [|url rest IH]; intros l loc Hwf Hlen Hloc.
  - destruct Hloc as [? | [Hin _]]; [done|]. by apply elem_of_nil in Hin.
  - inversion Hwf as [|? ? [u Hu] Hrest]; subst.
    unfold locs_of in Hloc. simpl in *. rewrite Hu in Hloc.
    unfold loc_of in Hu.
    destruct (getitem url (py "loc")) as [[|u'| |]|]; try done.
    injection Hu as ->.
    destruct (startswith u base && negb (str_in u l)) eqn:Hadd.
    + destruct (max_pages <=? len (l ++ [u])) eqn:Hcap.
      * apply Z.leb_le in Hcap. simpl in Hlen. lia.
      * apply IH; [done..|].
        destruct Hloc as [Hin | [Hin Hpre]].
        -- left. apply elem_of_app. by left.
        -- apply elem_of_cons in Hin as [-> | Hin].
           ++ left. apply elem_of_app. right. apply list_elem_of_here.
           ++ by right.
    + apply IH; [done..|].
      destruct Hloc as [Hin | [Hin Hpre]]; [by left|].
      apply elem_of_cons in Hin as [-> | Hin]; [|by right].
      left. rewrite Hpre in Hadd. simpl in Hadd.
      apply negb_false_iff in Hadd. by apply str_in_elem.
Qed.

(** When the top-level document is a urlset whose entries all have a
    [loc], [fetch_sitemap] returns its pages: they are taken from the
    listed locations in document order, and as long as the cap is not
    reached no listed location of the site is left out. *)
Theorem urlset_pages_in_document_order E base max_pages doc urls :
  top_level E base = Some doc →
  contains (py "sitemapindex") doc = Some false →
  urlset_urls doc = Some (Some urls) →
  Forall (λ e, is_Some (loc_of e)) (as_list urls) →
  ∃ l,
    fetch_sitemap E base max_pages [] = Some (Returns (0 <? len l), l)
    ∧ l `sublist_of` locs_of (as_list urls)
    ∧ (len l < max_pages →
       ∀ loc, loc ∈ locs_of (as_list urls) → startswith loc base = true →
              loc ∈ l).
Proof.
  intros Htop Hidx Hurls Hwf.
  exists (url_loop base max_pages (as_list urls) []).1.
  destruct (url_loop_sublist base max_pages (as_list urls) []) as (k & Hk & Hsub).
  pose proof (url_loop_completes base max_pages (as_list urls) [] Hwf) as Hok.
  split; [|split].
  - unfold fetch_sitemap, top_level in *.
    destruct (requests_get E (sitemap_url base)) as [resp|]; [|done].
    simpl in Htop. destruct (status_code resp =? 200); [|done].
    destruct (content resp) as [body|]; [|done]. simpl in Htop.
    unfold parsed_sitemap. rewrite Htop. simpl. rewrite Hidx. simpl.
    rewrite Hurls. simpl.
    destruct (url_loop base max_pages (as_list urls) []) as [l ok].
    simpl in Hok. by rewrite Hok.
  - by rewrite Hk.
  - intros Hlen loc Hin Hpre. apply url_loop_all; [done..|]. by right.
Qed.

Lemma urlset_pages_in_document_order_witness :
  ∃ l,
    fetch_sitemap Examples.plain_urlset Examples.root 5 []
    = Some (Returns (0 <? len l), l)
    ∧ l `sublist_of` locs_of (as_list Examples.plain_urls)
    ∧ (len l < 5 →
       ∀ loc, loc ∈ locs_of (as_list Examples.plain_urls) →
              startswith loc Examples.root = true → loc ∈ l).
Proof.
  apply (urlset_pages_in_document_order Examples.plain_urlset Examples.root 5
           (Examples.urlset Examples.plain_urls)).
  - vm_compute. reflexivity.
  - vm_compute. reflexivity.
  - vm_compute. reflexivity.
  - repeat constructor; by eexists.
Defined.

(** *** Child sitemaps *)

Lemma sitemap_loop_app E base max_pages e1 e2 l :
  sitemap_loop E base max_pages (e1 ++ e2) l
  = sitemap_loop E base max_pages e1 l ≫= sitemap_loop E base max_pages e2.
Proof.
  revert l. induction e1 as [|e e1 IH]; intros l; [done|]. simpl.
  destruct (getitem e (py "loc")) as [loc|]; [|done]. simpl. apply IH.
Qed.

(** A child sitemap that cannot be fetched is skipped: the pages are
    those of the index without it. *)
Theorem unreachable_child_is_skipped E base max_pages e1 bad e2 u l :
  getitem bad (py "loc") = Some (PStr u) →
  unreachable E u →
  sitemap_loop E base max_pages (e1 ++ bad :: e2) l
  = sitemap_loop E base max_pages (e1 ++ e2) l.
Proof.
  intros Hloc Hbad. rewrite !sitemap_loop_app.
  destruct (sitemap_loop E base max_pages e1 l) as [l1|]; [|done]. simpl.
  rewrite Hloc. simpl. f_equal.
  unfold sub_sitemap, unreachable in *.
  destruct (requests_get E u) as [r|]; [|done].
  destruct (status_code r =? 200) eqn:Hs; [|done].
  by apply Z.eqb_eq in Hs.
Qed.

Lemma unreachable_child_is_skipped_witness :
  getitem (Examples.loc_entry (py "https://ex.com/gone.xml")) (py "loc")
  = Some (PStr (py "https://ex.com/gone.xml"))
  ∧ unreachable Examples.two_sitemaps (py "https://ex.com/gone.xml")
  ∧ sitemap_loop Examples.two_sitemaps Examples.root 10
      ([Examples.loc_entry (py "https://ex.com/s1.xml")]
       ++ Examples.loc_entry (py "https://ex.com/gone.xml")
       :: [Examples.loc_entry (py "https://ex.com/s2.xml")]) []
    = sitemap_loop Examples.two_sitemaps Examples.root 10
        ([Examples.loc_entry (py "https://ex.com/s1.xml")]
         ++ [Examples.loc_entry (py "https://ex.com/s2.xml")]) [].
Proof.
  assert (unreachable Examples.two_sitemaps (py "https://ex.com/gone.xml"))
    as Hgone by (vm_compute; by intros H).
  split; [reflexivity|]. split; [exact Hgone|].
  by apply (unreachable_child_is_skipped Examples.two_sitemaps Examples.root 10
              _ _ _ (py "https://ex.com/gone.xml")).
Defined.

(** *** The crawl and the fallback *)

Lemma link_loop_extends base max_pages links : ∀ st,
  ∃ k, pages (link_loop base max_pages links st) = pages st ++ k.
Proof.
  induction links as [|link rest IH]; intros st.
  - exists []. by rewrite app_nil_r.
  - simpl. destruct (bool_decide (link ∉ visited st) && startswith link base).
    + destruct (max_pages <=? len (pages st ++ [link])).
      * by exists [link].
      * destruct (IH (Crawl (pages st ++ [link]) ({[link]} ∪ visited st)
                        (to_visit st ++ [link]))) as [k ->].
        exists (link :: k). simpl. by rewrite <- app_assoc.
    + apply IH.
Qed.

Lemma crawl_loop_extends fuel E base max_pages : ∀ st st',
  crawl_loop fuel E base max_pages st = Some st' →
  ∃ k, pages st' = pages st ++ k.
Proof.
  induction fuel as [|fuel IH]; intros st st' Hrun; simpl in Hrun;
    destruct (to_visit st) as [|current rest];
    try (simplify_eq; exists []; by rewrite app_nil_r);
    destruct (Z.of_nat (size (visited st)) <? max_pages);
    try (simplify_eq; exists []; by rewrite app_nil_r); try done.
  destruct (page_links E current) as [[origin hrefs]|].
  - apply IH in Hrun as [k ->].
    destruct (link_loop_extends base max_pages
                (filter (λ h, keep_link origin h = true) hrefs)
                (Crawl (pages st) (visited st) rest)) as [k' ->].
    exists (k' ++ k). simpl. by rewrite app_assoc.
  - apply IH in Hrun as [k ->]. by exists k.
Qed.

Lemma crawl_from_root B base max_pages :
  ∃ r rest,
    discover_pages_via_crawling B base base max_pages = Some (r, base :: rest)
    ∧ discovered base (base :: rest)
    ∧ len (base :: rest) ≤ Z.max 1 max_pages
    ∧ crawl_ret B r.
Proof.
  destruct (crawl_terminates B base max_pages) as [[r l] Hrun].
  pose proof (crawl_discovered B base max_pages r l Hrun) as [Hd Hcap].
  rewrite Hrun. unfold discover_pages_via_crawling in Hrun.
  unfold crawl_ret, runs.
  destruct (entered (play B)) as [msg|] eqn:He.
  { simplify_eq. exists (Raises msg), []. split_and!; try done.
    by intros (? & _). }
  destruct (launched (play B)) as [msg|] eqn:Hl.
  { unfold leaving in Hrun.
    destruct (exited (play B)) as [msg'|]; simpl in Hrun; simplify_eq.
    - exists (Raises msg'), []. split_and!; try done. by intros (_ & ? & _).
    - exists (Raises msg), []. split_and!; try done. by intros (_ & ? & _). }
  destruct (crawl_loop _ _ _ _ _) as [st|] eqn:Hloop; [|done].
  apply crawl_loop_extends in Hloop as [k Hk]. simpl in Hk.
  simpl in Hrun. rewrite Hk in Hrun. unfold leaving in Hrun.
  destruct (exited (play B)) as [msg'|] eqn:Hx; simpl in Hrun.
  { simplify_eq. exists (Raises msg'), k. split_and!; try done.
    by intros (_ & _ & _ & ?). }
  destruct (closed (play B) 0) as [msg|] eqn:Hc; simpl in Hrun; simplify_eq.
  - exists (Raises msg), k. split_and!; try done. by intros (_ & _ & ? & _).
  - exists (Returns true), k. by split_and!.
Qed.

(** Crawl-based discovery always comes to an end.  It returns [True]
    exactly when its browser starts, is closed and is left without an
    exception, and lets the exception through otherwise.  In both cases
    the first page is the site root, every page is on the site, none is
    listed twice, and for a cap of at least one page the cap is
    respected. *)
Theorem crawl_outcome B base max_pages :
  ∃ r rest,
    discover_pages_via_crawling B base base max_pages = Some (r, base :: rest)
    ∧ discovered base (base :: rest)
    ∧ len (base :: rest) ≤ Z.max 1 max_pages
    ∧ match r with
      | Returns b => b = true ∧ runs (play B)
      | Raises _ => ¬ runs (play B)
      | Falls_through => False
      end.
Proof. apply crawl_from_root. Qed.

Lemma crawl_in_try_from_root E base max_pages :
  ∃ r rest,
    crawl_in_try E base max_pages = Some (r, base :: rest)
    ∧ discovered base (base :: rest)
    ∧ len (base :: rest) ≤ Z.max 1 max_pages
    ∧ match r with
      | Returns b => b = true
      | Raises _ => ¬ runs (play (browsers E 0)) ∧ ¬ runs (play (browsers E 1))
      | Falls_through => False
      end.
Proof.
  unfold crawl_in_try, crawl.
  destruct (crawl_from_root (browsers E 0) base max_pages)
    as (r0 & rest0 & -> & Hd0 & Hcap0 & Hr0).
  destruct r0 as [b| |msg]; [| done |].
  - exists (Returns b), rest0. split_and!; try done. by destruct Hr0.
  - destruct (crawl_from_root (browsers E 1) base max_pages)
      as (r1 & rest1 & -> & Hd1 & Hcap1 & Hr1).
    exists r1, rest1. split_and!; try done.
    destruct r1; [by destruct Hr1 | done | done].
Qed.

(** Without a usable top-level sitemap (the request raises, the status
    is not 200, the body is not UTF-8 or does not parse) discovery is a
    crawl from the site root, whatever pages were listed before.  When
    the browser of the crawl runs, [fetch_sitemap] returns [True];
    otherwise the exception of the crawl is raised, except that a crawl
    started inside the outer [try] (the status is not 200, or the body
    does not parse) is started once more when it raises.  In all cases
    the pages start with the site root, are on the site and distinct
    and, for a cap of at least one page, within the cap. *)
Theorem fetch_sitemap_falls_back E base max_pages l :
  top_level E base = None →
  ∃ r rest,
    fetch_sitemap E base max_pages l = Some (r, base :: rest)
    ∧ discovered base (base :: rest)
    ∧ len (base :: rest) ≤ Z.max 1 max_pages
    ∧ (r = Returns true
       ∨ ∃ msg, r = Raises msg ∧ ¬ runs (play (browsers E 0)))
    ∧ (runs (play (browsers E 0)) → r = Returns true)
    ∧ (∀ resp, requests_get E (sitemap_url base) = Some resp →
               status_code resp ≠ 200 ∨ is_Some (content resp) →
               runs (play (browsers E 1)) → r = Returns true).
Proof.
  intros Htop.
  assert (∀ r rest,
            crawl E 0 base max_pages = Some (r, base :: rest) →
            crawl_ret (browsers E 0) r →
            (r = Returns true
             ∨ ∃ msg, r = Raises msg ∧ ¬ runs (play (browsers E 0)))
            ∧ (runs (play (browsers E 0)) → r = Returns true)) as Hfirst.
  { intros r rest _ Hr. destruct r as [b| |msg]; [| done |].
    - destruct Hr as [-> _]. split; [by left | done].
    - simpl in Hr. split; [right; by exists msg | done]. }
  assert (∀ r rest,
            crawl_in_try E base max_pages = Some (r, base :: rest) →
            match r with
            | Returns b => b = true
            | Raises _ =>
                ¬ runs (play (browsers E 0)) ∧ ¬ runs (play (browsers E 1))
            | Falls_through => False
            end →
            (r = Returns true
             ∨ ∃ msg, r = Raises msg ∧ ¬ runs (play (browsers E 0)))
            ∧ (runs (play (browsers E 0)) → r = Returns true)
            ∧ (runs (play (browsers E 1)) → r = Returns true)) as Hretry.
  { intros r rest _ Hr. destruct r as [b| |msg]; [| done |].
    - subst. by split_and!; [left|..].
    - destruct Hr as [H0 H1]. split; [right; by exists msg | done]. }
  destruct (crawl_from_root (browsers E 0) base max_pages)
    as (r0 & rest0 & Hrun0 & Hd0 & Hcap0 & Hr0).
  destruct (crawl_in_try_from_root E base max_pages)
    as (r1 & rest1 & Hrun1 & Hd1 & Hcap1 & Hr1).
  fold (crawl E 0 base max_pages) in Hrun0.
  destruct (Hfirst _ _ Hrun0 Hr0) as [Ha0 Hb0].
  destruct (Hretry _ _ Hrun1 Hr1) as (Ha1 & Hb1 & Hc1).
  unfold top_level, fetch_sitemap in *.
  destruct (requests_get E (sitemap_url base)) as [resp|].
  - simpl in Htop. destruct (status_code resp =? 200) eqn:Hs.
    + destruct (content resp) as [body|] eqn:Hbody.
      * simpl in Htop. unfold parsed_sitemap. rewrite Htop. simpl.
        exists r1, rest1. split_and!; try done; by intros ? _ _.
      * exists r0, rest0. split_and!; try done.
        intros ? [= <-] [Hne | [? ?]]; [|congruence].
        by apply Z.eqb_eq in Hs.
    + exists r1, rest1. split_and!; try done; by intros ? _ _.
  - exists r0, rest0. by split_and!.
Qed.

Lemma fetch_sitemap_falls_back_witness :
  top_level (Examples.site_with
               (λ n, if n is O then Examples.no_browser else Examples.working)
               [] Examples.anchors) Examples.root = None
  ∧ ∃ r rest,
      fetch_sitemap (Examples.site_with
                       (λ n, if n is O then Examples.no_browser
                             else Examples.working)
                       [] Examples.anchors) Examples.root 10 []
      = Some (r, Examples.root :: rest)
      ∧ r = Returns true
      ∧ rest = [py "https://ex.com/about"; py "https://ex.com/contact"].
Proof.
  split; [reflexivity|].
  destruct (fetch_sitemap_falls_back
              (Examples.site_with
                 (λ n, if n is O then Examples.no_browser else Examples.working)
                 [] Examples.anchors) Examples.root 10 [] eq_refl)
    as (r & rest & Hrun & _ & _ & _ & _ & Hretry).
  exists r, rest. split; [exact Hrun|].
  assert (r = Returns true) as Hr.
  { apply (Hretry (Response 404 (Some [])));
      [reflexivity | left; by vm_compute | by split_and!]. }
  split; [exact Hr|]. subst r. vm_compute in Hrun. by simplify_eq.
Defined.

Lemma fetch_sitemap_discovered_witness :
  fetch_sitemap Examples.two_sitemaps Examples.root 2 []
  = Some (Returns true, [py "https://ex.com/a"; py "https://ex.com/b";
                         py "https://ex.com/c"])
  ∧ discovered Examples.root
      [py "https://ex.com/a"; py "https://ex.com/b"; py "https://ex.com/c"].
Proof.
  assert (fetch_sitemap Examples.two_sitemaps Examples.root 2 []
          = Some (Returns true, [py "https://ex.com/a"; py "https://ex.com/b";
                                 py "https://ex.com/c"])) as Hrun
    by (vm_compute; reflexivity).
  split; [exact Hrun|].
  exact (fetch_sitemap_discovered _ _ _ _ _ Hrun).
Defined.

Lemma fetch_sitemap_cap_without_index_witness :
  1 ≤ 2
  ∧ fetch_sitemap Examples.plain_urlset Examples.root 2 []
    = Some (Returns true, [py "https://ex.com/a"; py "https://ex.com/b"])
  ∧ len [py "https://ex.com/a"; py "https://ex.com/b"] ≤ 2.
Proof.
  assert (fetch_sitemap Examples.plain_urlset Examples.root 2 []
          = Some (Returns true, [py "https://ex.com/a"; py "https://ex.com/b"]))
    as Hrun by (vm_compute; reflexivity).
  split; [lia|]. split; [exact Hrun|].
  eapply (fetch_sitemap_cap_without_index Examples.plain_urlset Examples.root 2
            (Returns true)); [lia | | exact Hrun].
  intros doc Hdoc. vm_compute in Hdoc. simplify_eq. by vm_compute.
Defined.

End DiscoveryOrderFacts.

(** ** The crawl result *)

Section CrawlResultFacts.

Import Discovery Orchestrator Fetch.

Lemma scrape_page_returned S E u p :
  scrape_page S E u = Returned (Some p) →
  ∃ page_title page_content meta,
    extract E u = Some (page_title, page_content, meta)
    ∧ p = PageRecord u page_title page_content
            (Chunker.chunk_text (chunk_size S) page_content)
            (len (Chunker.chunk_text (chunk_size S) page_content))
            (meta ∪ {[ py "source" := domain_name S ]}
                  ∪ {[ py "last_modified" := page_clock E u ]}
                  ∪ {[ py "language" := py "fr" ]}).
Proof.
  unfold scrape_page. intros H.
  destruct (entered (page_play E u)); [done|].
  destruct (exited (page_play E u)); [done|].
  destruct (launched (page_play E u)); [done|].
  destruct (extract E u) as [[[t c] m]|].
  - destruct (closed (page_play E u) 0).
    + by destruct (closed (page_play E u) 1).
    + exists t, c, m. by simplify_eq.
  - by destruct (closed (page_play E u) 0).
Qed.

Lemma scrape_page_record S E u p :
  scrape_page S E u = Returned (Some p) →
  url p = u
  ∧ chunks p = Chunker.chunk_text (chunk_size S) (content p)
  ∧ chunk_count p = len (chunks p).
Proof. by intros (t & c & m & _ & ->)%scrape_page_returned. Qed.

Lemma scraped_records S E l : ∀ results,
  map (scrape_page S E) l = map Returned results →
  Forall (λ p, chunks p = Chunker.chunk_text (chunk_size S) (content p)
               ∧ chunk_count p = len (chunks p))
         (omap id results)
  ∧ url <$> omap id results `sublist_of` l
  ∧ ((∀ u, u ∈ l → ∃ p, scrape_page S E u = Returned (Some p)) →
     url <$> omap id results = l).
Proof.
  induction l as [|u l IH]; intros [|res results] Hmap; try done.
  simpl in Hmap. injection Hmap as Hu Hmap.
  destruct (IH results Hmap) as (IH1 & IH2 & IH3).
  change (omap id (res :: results))
    with (match res with Some p => p :: omap id results
                    | None => omap id results end).
  destruct res as [p|].
  - apply scrape_page_record in Hu as (Hurl & Hc & Hn). split; [|split].
    + by constructor.
    + simpl. rewrite Hurl. by apply sublist_skip.
    + intros Hall. simpl. rewrite Hurl. f_equal. apply IH3.
      intros v Hv. apply Hall. by apply list_elem_of_further.
  - split; [done|]. split; [by apply sublist_cons|].
    intros Hall. destruct (Hall u) as [? ?]; [apply list_elem_of_here|].
    congruence.
Qed.

(** A task that is not blocked is the fetch of its page. *)
Lemma bounded_scrape_returned S E l : ∀ results,
  map (bounded_scrape S E) l = map Returned results →
  map (scrape_page S E) l = map Returned results.
Proof.
  intros results Hmap. rewrite <- Hmap. apply map_ext_in. intros u Hu.
  unfold bounded_scrape. destruct (max_concurrent S =? 0) eqn:Hzero; [|done].
  apply (f_equal (λ l, l !! 0%nat)) in Hmap as Hhead.
  destruct l as [|u0 l]; [by destruct Hu|].
  destruct results as [|r0 results]; [done|].
  simpl in Hhead. unfold bounded_scrape in Hhead. rewrite Hzero in Hhead.
  done.
Qed.

Lemma scrape_all_pages_unfold S E max_pages r :
  scrape_all_pages S E max_pages = Some (Returned (Some r)) →
  ∃ found l results,
    fetch_sitemap (discovery E) (base_url S) max_pages [] = Some (found, l)
    ∧ ret_truthy found = true
    ∧ map (scrape_page S E) (to_fetch max_pages l) = map Returned results
    ∧ r = CrawlResult (base_url S) (domain_name S)
            (len (omap id results)) (final_clock E)
            (sum_Z (map chunk_count (omap id results)))
            (omap id results).
Proof.
  unfold scrape_all_pages. intros H.
  destruct (fetch_sitemap _ _ _ _) as [[found l]|]; [|done]. simpl in H.
  destruct found as [b| |msg]; try done.
  destruct (ret_truthy (Returns b)) eqn:Hf; simpl in H; [|done].
  destruct (max_concurrent S <? 0); [done|].
  destruct (gather _ _) as [results| |] eqn:Hgather; try done.
  apply gather_returned_inv, bounded_scrape_returned in Hgather.
  exists (Returns b), l, results. by simplify_eq.
Qed.

Lemma length_omap_le {A B} (f : A → option B) (l : list A) :
  (length (omap f l) ≤ length l)%nat.
Proof.
  induction l as [|x l IH]; [done|].
  change (omap f (x :: l))
    with (match f x with Some y => y :: omap f l | None => omap f l end).
  destruct (f x); cbn [length]; lia.
Qed.

(** What every crawl result satisfies: the counts are those of its pages,
    the passages of a page are the chunks of its content, and for a cap
    that is not negative there are at most [max_pages] pages. *)
Theorem scrape_all_pages_result S E max_pages r :
  scrape_all_pages S E max_pages = Some (Returned (Some r)) →
  domain r = base_url S
  ∧ total_pages r = len (cr_pages r)
  ∧ total_chunks r = sum_Z (len ∘ chunks <$> cr_pages r)
  ∧ Forall (λ p, chunks p = Chunker.chunk_text (chunk_size S) (content p)
                 ∧ chunk_count p = len (chunks p)) (cr_pages r)
  ∧ (0 ≤ max_pages → total_pages r ≤ max_pages).
Proof.
  intros (found & l & results & Hfetch & Hfound & Hmap & ->)
    %scrape_all_pages_unfold. simpl.
  destruct (scraped_records S E (to_fetch max_pages l) results Hmap)
    as (Hrec & _ & _).
  repeat split; [|done|].
  - f_equal. apply Forall_fmap_ext_1.
    eapply Forall_impl; [exact Hrec|]. by intros p [_ ?].
  - intros Hmax. pose proof (fetched_pages_cap max_pages l Hmax) as Hcap.
    pose proof (length_omap_le id results) as Hle.
    apply (f_equal length) in Hmap. rewrite !length_map in Hmap.
    unfold to_fetch, len in *. lia.
Qed.

Lemma scrape_all_pages_result_witness :
  ∃ r,
    scrape_all_pages Examples.default_scraper
      (Examples.rendering_pages Examples.two_sitemaps) 2
    = Some (Returned (Some r))
    ∧ domain r = base_url Examples.default_scraper
    ∧ total_pages r = len (cr_pages r)
    ∧ total_chunks r = sum_Z (len ∘ chunks <$> cr_pages r)
    ∧ Forall (λ p, chunks p
                   = Chunker.chunk_text (chunk_size Examples.default_scraper)
                       (content p)
                   ∧ chunk_count p = len (chunks p)) (cr_pages r)
    ∧ (0 ≤ 2 → total_pages r ≤ 2).
Proof.
  destruct (scrape_all_pages Examples.default_scraper
              (Examples.rendering_pages Examples.two_sitemaps) 2)
    as [[[r|]|msg|]|] eqn:Hrun; [|by vm_compute in Hrun..].
  exists r. split; [done|].
  exact (scrape_all_pages_result _ _ _ _ Hrun).
Defined.

(** The pages of the result follow the order of discovery: they are the
    pages to fetch without those whose fetch failed, and all of them when
    no fetch fails. *)
Theorem scraped_pages_in_discovery_order S E max_pages found l r :
  fetch_sitemap (discovery E) (base_url S) max_pages [] = Some (found, l) →
  scrape_all_pages S E max_pages = Some (Returned (Some r)) →
  url <$> cr_pages r `sublist_of` to_fetch max_pages l
  ∧ ((∀ u, u ∈ to_fetch max_pages l →
           ∃ p, scrape_page S E u = Returned (Some p)) →
     url <$> cr_pages r = to_fetch max_pages l).
Proof.
  intros Hfetch (found' & l' & results & Hfetch' & _ & Hmap & ->)
    %scrape_all_pages_unfold.
  rewrite Hfetch in Hfetch'. simplify_eq. simpl.
  destruct (scraped_records S E (to_fetch max_pages l') results Hmap)
    as (_ & Hsub & Hall).
  by split.
Qed.

Lemma scraped_pages_in_discovery_order_witness :
  ∃ r,
    scrape_all_pages Examples.default_scraper
      (Examples.rendering_pages Examples.two_sitemaps) 2
    = Some (Returned (Some r))
    ∧ url <$> cr_pages r
      `sublist_of` to_fetch 2 [py "https://ex.com/a"; py "https://ex.com/b";
                               py "https://ex.com/c"]
    ∧ ((∀ u, u ∈ to_fetch 2 [py "https://ex.com/a"; py "https://ex.com/b";
                              py "https://ex.com/c"] →
             ∃ p, scrape_page Examples.default_scraper
                    (Examples.rendering_pages Examples.two_sitemaps) u
                  = Returned (Some p)) →
       url <$> cr_pages r
       = to_fetch 2 [py "https://ex.com/a"; py "https://ex.com/b";
                     py "https://ex.com/c"]).
Proof.
  destruct (scrape_all_pages Examples.default_scraper
              (Examples.rendering_pages Examples.two_sitemaps) 2)
    as [[[r|]|msg|]|] eqn:Hrun; [|by vm_compute in Hrun..].
  exists r. split; [done|].
  apply (scraped_pages_in_discovery_order Examples.default_scraper
           (Examples.rendering_pages Examples.two_sitemaps) 2 (Returns true));
    [vm_compute; reflexivity | exact Hrun].
Defined.

(** *** Metadata *)

Lemma meta_step_kept metadata meta :
  meta_step metadata meta
  = match kept meta with
    | Some (name, content) => <[name := content]> metadata
    | None => metadata
    end.
Proof.
  unfold meta_step, kept.
  destruct (js_or (name_attr meta) (property_attr meta)) as [[|n name]|];
    destruct (content_attr meta) as [[|c content]|]; try done.
  cbn [Chunker.truthy andb]. by destruct (kept_name (n :: name)).
Qed.

Lemma page_metadata_snoc tags meta :
  page_metadata (tags ++ [meta]) = meta_step (page_metadata tags) meta.
Proof. unfold page_metadata. by rewrite fold_left_app. Qed.

(** The value under a name is the content of the last element that
    adds an entry of that name. *)
Lemma page_metadata_lookup tags k v :
  page_metadata tags !! k = Some v
  ↔ ∃ before tag after,
      tags = before ++ tag :: after
      ∧ kept tag = Some (k, v)
      ∧ Forall (λ t, ∀ v', kept t ≠ Some (k, v')) after.
Proof.
  induction tags as [|t tags IH] using rev_ind.
  { split; [done|]. intros (before & tag & after & H & _).
    by destruct before. }
  rewrite page_metadata_snoc, meta_step_kept.
  assert (∀ before tag after,
            tags ++ [t] = before ++ tag :: after →
            (after = [] ∧ tags = before ∧ t = tag)
            ∨ ∃ after', after = after' ++ [t]
                        ∧ tags = before ++ tag :: after') as Hsplit.
  { intros before tag after H.
    destruct after as [|a after _] using rev_ind.
    - left. apply app_inj_tail in H as [-> ->]. done.
    - right. exists after.
      change (before ++ tag :: after ++ [a])
        with (before ++ (tag :: after) ++ [a]) in H.
      rewrite app_assoc in H. apply app_inj_tail in H as [-> ->]. done. }
  destruct (kept t) as [[n c]|] eqn:Hkept.
  - destruct (decide (n = k)) as [-> | Hne].
    + rewrite lookup_insert_eq. split.
      * intros [= ->]. exists tags, t, []. by split_and!.
      * intros (before & tag & after & H & Hk & Hafter).
        destruct (Hsplit _ _ _ H) as [(-> & -> & ->) | (after' & -> & _)].
        -- congruence.
        -- rewrite Forall_app, Forall_singleton in Hafter.
           destruct Hafter as [_ Hlast]. by destruct (Hlast c).
    + rewrite lookup_insert_ne by done. rewrite IH. split.
      * intros (before & tag & after & -> & Hk & Hafter).
        exists before, tag, (after ++ [t]). split_and!; [|done|].
        -- exact (eq_sym (app_assoc before (tag :: after) [t])).
        -- rewrite Forall_app, Forall_singleton. split; [done|].
           intros v'. congruence.
      * intros (before & tag & after & H & Hk & Hafter).
        destruct (Hsplit _ _ _ H) as [(-> & -> & ->) | (after' & -> & ->)].
        -- congruence.
        -- rewrite Forall_app in Hafter. destruct Hafter as [Hafter _].
           by exists before, tag, after'.
  - rewrite IH. split.
    + intros (before & tag & after & -> & Hk & Hafter).
      exists before, tag, (after ++ [t]). split_and!; [|done|].
      * exact (eq_sym (app_assoc before (tag :: after) [t])).
      * rewrite Forall_app, Forall_singleton. split; [done|].
        intros v'. congruence.
    + intros (before & tag & after & H & Hk & Hafter).
      destruct (Hsplit _ _ _ H) as [(-> & -> & ->) | (after' & -> & ->)].
      * congruence.
      * rewrite Forall_app in Hafter. destruct Hafter as [Hafter _].
        by exists before, tag, after'.
Qed.

Lemma kept_name_true tag k v : kept tag = Some (k, v) → kept_name k = true.
Proof.
  unfold kept.
  destruct (js_or _ _) as [[|n name]|]; try done.
  destruct (content_attr tag) as [[|c content]|]; try done.
  destruct (kept_name (n :: name)) eqn:Hn; [|done]. by intros [= <- _].
Qed.

Lemma page_metadata_own tags k :
  k ∈ own_keys → page_metadata tags !! k = None.
Proof.
  intros Hk. destruct (page_metadata tags !! k) as [v|] eqn:Hv; [|done].
  apply page_metadata_lookup in Hv as (_ & tag & _ & _ & Hkept & _).
  apply kept_name_true in Hkept.
  unfold own_keys in Hk.
  repeat (apply elem_of_cons in Hk as [-> | Hk]; [by vm_compute in Hkept|]).
  by apply elem_of_nil in Hk.
Qed.

(** The metadata of a page.  Under [source], [last_modified] and
    [language] it holds the domain, the time of the fetch and ['fr'],
    whatever the page declares: the script keeps no [<meta>] element of
    these names.  Under every other name it holds the content of the
    last [<meta>] element of that name that the script keeps, and
    nothing when there is none. *)
Theorem scrape_page_metadata S E u p :
  scrape_page S E u = Returned (Some p) →
  ∃ r tags,
    render E u = Some r ∧ r_meta r = Some tags
    ∧ metadata p !! py "source" = Some (domain_name S)
    ∧ metadata p !! py "last_modified" = Some (page_clock E u)
    ∧ metadata p !! py "language" = Some (py "fr")
    ∧ ∀ k v, k ∉ own_keys →
        (metadata p !! k = Some v
         ↔ ∃ before tag after,
             tags = before ++ tag :: after
             ∧ kept tag = Some (k, v)
             ∧ Forall (λ t, ∀ v', kept t ≠ Some (k, v')) after).
Proof.
  intros (t & c & m & Hex & ->)%scrape_page_returned.
  unfold extract in Hex.
  destruct (render E u) as [r|]; [|done]. simpl in Hex.
  destruct (if too_short (r_main r) then r_paragraphs r else r_main r)
    as [c'|]; [|done]. simpl in Hex.
  destruct (r_meta r) as [tags|] eqn:Htags; [|done]. simpl in Hex.
  injection Hex as <- <- <-.
  exists r, tags. cbn [metadata]. split; [done|]. split; [done|].
  assert (py "source" ≠ py "last_modified") by (by vm_compute).
  assert (py "source" ≠ py "language") by (by vm_compute).
  assert (py "last_modified" ≠ py "language") by (by vm_compute).
  assert (page_metadata tags !! py "source" = None) as Hsource
    by (apply page_metadata_own; unfold own_keys; set_solver).
  assert (page_metadata tags !! py "last_modified" = None) as Hmodified
    by (apply page_metadata_own; unfold own_keys; set_solver).
  assert (page_metadata tags !! py "language" = None) as Hlanguage
    by (apply page_metadata_own; unfold own_keys; set_solver).
  split_and!.
  - apply lookup_union_Some_raw. left.
    apply lookup_union_Some_raw. left.
    apply lookup_union_Some_raw. right. split; [exact Hsource|].
    apply lookup_singleton_eq.
  - apply lookup_union_Some_raw. left.
    apply lookup_union_Some_raw. right. split.
    + apply lookup_union_None. split; [exact Hmodified|].
      by apply lookup_singleton_ne.
    + apply lookup_singleton_eq.
  - apply lookup_union_Some_raw. right. split.
    + apply lookup_union_None. split.
      * apply lookup_union_None. split; [exact Hlanguage|].
        by apply lookup_singleton_ne.
      * by apply lookup_singleton_ne.
    + apply lookup_singleton_eq.
  - intros k v Hk. rewrite <- page_metadata_lookup.
    assert (k ≠ py "source" ∧ k ≠ py "last_modified" ∧ k ≠ py "language")
      as (Hk1 & Hk2 & Hk3) by (unfold own_keys in Hk; set_solver).
    rewrite !lookup_union_Some_raw, !lookup_union_None.
    rewrite !lookup_singleton_ne by done.
    split; [|by intros; do 3 left].
    by intros [[[Hv | [_ Hv]] | [_ Hv]] | [_ Hv]].
Qed.

Lemma scrape_page_metadata_witness :
  ∃ p,
    scrape_page Examples.default_scraper
      (Examples.rendering_pages Examples.two_sitemaps) (py "https://ex.com/a")
    = Returned (Some p)
    ∧ metadata p !! py "source" = Some (py "ex.com")
    ∧ metadata p !! py "language" = Some (py "fr")
    ∧ metadata p !! py "description" = Some (py "La page").
Proof.
  destruct (scrape_page Examples.default_scraper
              (Examples.rendering_pages Examples.two_sitemaps)
              (py "https://ex.com/a")) as [[p|]|msg|] eqn:Hp;
    [|by vm_compute in Hp..].
  destruct (scrape_page_metadata _ _ _ _ Hp)
    as (r & tags & Hr & Htags & Hsource & _ & Hlanguage & Hother).
  exists p. split_and!; [done | exact Hsource | exact Hlanguage |].
  apply Hother.
  { unfold own_keys. intros Hk.
    repeat (apply elem_of_cons in Hk as [Hk | Hk]; [by vm_compute in Hk|]).
    by apply elem_of_nil in Hk. }
  vm_compute in Hr. injection Hr as <-. vm_compute in Htags.
  injection Htags as <-.
  eexists [_; _; _], _, []. split_and!; [reflexivity | reflexivity |].
  constructor.
Defined.

End CrawlResultFacts.

(** ** The vector store: batches, identifiers, answers *)

Section StoreFacts.

Import VectorStore Answer.

Lemma batch_loop_prefix E a m : ∀ s store,
  length (a_documents a) = length (a_metadatas a) →
  length (a_metadatas a) = length (a_ids a) →
  ∃ j, (j ≤ m)%nat
    ∧ (batch_loop E a (map (λ k, k * batch_size)%nat (seq s m)) store).1
      = store ++ take (j * batch_size)
                   (drop (s * batch_size)
                      (zip3 (a_documents a) (a_metadatas a) (a_ids a)))
    ∧ ((batch_loop E a (map (λ k, k * batch_size)%nat (seq s m)) store).2 = None
       → j = m)
    ∧ (is_Some (batch_loop E a (map (λ k, k * batch_size)%nat (seq s m)) store).2
       → (j < m)%nat).
Proof.
  induction m as [|m IH]; intros s store H1 H2.
  - exists 0%nat. simpl. rewrite app_nil_r.
    repeat split; try done; by intros [? ?].
  - simpl.
    set (batch := zip3 (slice (s * batch_size) batch_size (a_documents a))
                       (slice (s * batch_size) batch_size (a_metadatas a))
                       (slice (s * batch_size) batch_size (a_ids a))).
    assert (batch = take batch_size
                      (drop (s * batch_size)
                         (zip3 (a_documents a) (a_metadatas a) (a_ids a))))
      as Hbatch.
    { unfold batch, slice. by rewrite zip3_take, zip3_drop. }
    destruct (collection_add E batch) as [msg|].
    + exists 0%nat. simpl. rewrite app_nil_r.
      repeat split; try done; lia.
    + destruct (IH (S s) (store ++ batch) H1 H2)
        as (j & Hj & Heq & Hnone & Hsome).
      exists (S j). split; [lia|]. split; [|split].
      * rewrite Heq, Hbatch, <- app_assoc. f_equal.
        replace (S s * batch_size)%nat with (s * batch_size + batch_size)%nat
          by lia.
        rewrite <- drop_drop.
        replace (S j * batch_size)%nat with (batch_size + j * batch_size)%nat
          by lia.
        apply take_take_drop.
      * intros H. f_equal. by apply Hnone.
      * intros H. apply Hsome in H. lia.
Qed.

Lemma ceil_div_bounds (n b : nat) :
  (0 < b)%nat →
  (n ≤ (n + b - 1) / b * b)%nat
  ∧ (∀ j, j < (n + b - 1) / b → j * b < n)%nat.
Proof.
  intros Hb.
  pose proof (Nat.div_mod_eq (n + b - 1) b) as Hdiv.
  pose proof (Nat.mod_upper_bound (n + b - 1) b) as Hmod.
  split; [nia|]. intros j Hj. nia.
Qed.

(** Documents reach the collection in whole batches of 20 and in order:
    after [load_from_dict], successful or not, the collection holds what
    it held before followed by the first [k] batches of the documents to
    ingest; all of them when nothing is raised, and not all of them when
    the error (whose message starts with the text of line 149) is
    raised. *)
Theorem load_from_dict_whole_batches E ps store :
  ∃ k : nat,
    (load_from_dict E ps store).1
    = store ++ take (k * batch_size) (ingest_documents ps)
    ∧ ((load_from_dict E ps store).2 = None
       → (load_from_dict E ps store).1 = store ++ ingest_documents ps)
    ∧ (∀ msg, (load_from_dict E ps store).2 = Some msg
       → (k * batch_size < length (ingest_documents ps))%nat
         ∧ ∃ cause,
             msg = py "Erreur lors du chargement des données: " ++ cause).
Proof.
  destruct (build_holds ps) as (Hd & Hm & Hi & _).
  assert (zip3 (a_documents (build ps)) (a_metadatas (build ps))
            (a_ids (build ps)) = ingest_documents ps) as Hzip.
  { rewrite Hd, Hm, Hi. apply zip3_numbered. }
  assert (length (a_documents (build ps)) = length (ingest_documents ps))
    as Hlen.
  { rewrite Hd. unfold ingest_documents. by rewrite length_fmap, length_imap. }
  assert (length (a_documents (build ps)) = length (a_metadatas (build ps)))
    as H1 by (by rewrite Hd, Hm, !length_fmap).
  assert (length (a_metadatas (build ps)) = length (a_ids (build ps)))
    as H2 by (by rewrite Hm, Hi, length_fmap, length_imap).
  unfold load_from_dict, range_step.
  destruct (batch_loop_prefix E (build ps)
              ((length (a_documents (build ps)) + batch_size - 1) / batch_size)
              0 store H1 H2) as (j & Hj & Heq & Hnone & Hsome).
  rewrite Hzip, Hlen, Nat.mul_0_l, drop_0 in *.
  destruct (ceil_div_bounds (length (ingest_documents ps)) batch_size)
    as [Hall Hpart]; [unfold batch_size; lia|].
  destruct (batch_loop E (build ps) _ store) as [store' [msg|]];
    cbn [fst snd] in *.
  - exists j. split; [done|]. split; [done|].
    intros msg' [= <-]. split; [|by eexists].
    apply Hpart, Hsome. by eexists.
  - exists j. split; [done|]. split; [|done].
    intros _. rewrite Heq, Hnone by done. f_equal. by apply take_ge.
Qed.

(** *** Identifiers *)

(** The identifiers that one call of [load_from_dict] builds are pairwise
    distinct. *)
Theorem built_ids_distinct ps : NoDup (a_ids (build ps)).
Proof.
  destruct (build_holds ps) as (_ & _ & -> & _).
  rewrite (imap_seq_0 _ (λ k, make_id (Z.of_nat k))).
  apply numbered_ids_distinct.
Qed.

(** *** Answers *)

Lemma source_loop_sources r metas ds docs : ∀ i acc,
  metadatas r !! 0%nat = Some metas →
  (∃ dss, distances r = Some dss ∧ dss !! 0%nat = Some ds) →
  (i + length docs ≤ length metas)%nat →
  (i + length docs ≤ length ds)%nat →
  source_loop r i docs acc
  = Ok (acc ++ sources_of docs (drop i metas) (drop i ds)).
Proof.
  induction docs as [|doc rest IH]; intros i acc Hm (dss & Hd & Hrow) Hlm Hld.
  - simpl. unfold sources_of. simpl. by rewrite app_nil_r.
  - simpl in *. unfold index. rewrite Hm. cbn [mbind result_bind].
    destruct (metas !! i) as [meta|] eqn:Hmeta;
      [|apply lookup_ge_None in Hmeta; lia].
    cbn [mbind result_bind]. rewrite Hd, Hrow. cbn [mbind result_bind].
    destruct (ds !! i) as [score|] eqn:Hscore;
      [|apply lookup_ge_None in Hscore; lia].
    cbn [mbind result_bind].
    rewrite IH; [|done|by exists dss|lia..].
    rewrite (drop_S _ _ _ Hmeta), (drop_S _ _ _ Hscore).
    unfold sources_of. simpl. by rewrite <- app_assoc.
Qed.

(** When the engine returns a row of passages with at least as many
    metadata entries and distances, and the model replies, the answer is
    the reply, and the sources are the passages in the order of the
    engine, each with its address, title and distance. *)
Theorem rag_query_success E q k t r docs metas dss ds reply :
  collection_query E q k = Ok r →
  documents r !! 0%nat = Some docs →
  metadatas r !! 0%nat = Some metas →
  distances r = Some dss → dss !! 0%nat = Some ds →
  (length docs ≤ length metas)%nat → (length docs ≤ length ds)%nat →
  chat_completion E system_prompt
    (user_prompt (context_of (sources_of docs metas ds)) q) = Ok reply →
  rag_query E q k t = QueryResult reply (sources_of docs metas ds).
Proof.
  intros Hq Hdocs Hm Hd Hrow Hlm Hld Hchat.
  unfold rag_query, rag_query_body. rewrite Hq. cbn [mbind result_bind].
  unfold index at 1. rewrite Hdocs. cbn [mbind result_bind].
  pose proof (source_loop_sources r metas ds docs 0 [] Hm
                (ex_intro _ dss (conj Hd Hrow)) Hlm Hld) as Hloop.
  rewrite !drop_0, app_nil_l in Hloop. rewrite Hloop.
  cbn [mbind result_bind]. by rewrite Hchat.
Qed.

Lemma rag_query_success_witness :
  rag_query Examples.working_engine (py "question") 3 (4 # 10)
  = QueryResult (py "La réponse.")
      (sources_of [py "alpha"; py "beta"]
         [HitMeta (Some (py "https://ex.com/a")) (Some (py "A"));
          HitMeta None None]
         [1 # 10; 9 # 10]).
Proof.
  by apply (rag_query_success Examples.working_engine (py "question") 3 (4 # 10)
              Examples.two_hits _ _ [[1 # 10; 9 # 10]]);
    try reflexivity; simpl; lia.
Defined.

End StoreFacts.

(** ** The entry point of the crawl *)

Section SiteFacts.

Import Discovery Orchestrator Fetch Site.

(** [scrape_page] comes to an end: it returns or raises. *)
Lemma scrape_page_not_blocked S E u : scrape_page S E u ≠ Blocked.
Proof.
  unfold scrape_page.
  destruct (entered (page_play E u)); [done|].
  destruct (exited (page_play E u)); [done|].
  destruct (launched (page_play E u)); [done|].
  destruct (extract E u) as [[[t c] m]|];
    destruct (closed (page_play E u) 0); try done;
    by destruct (closed (page_play E u) 1).
Qed.

(** [asyncio.gather] waits for ever only when a task does. *)
Lemma gather_blocked {A} first (tasks : list (outcome A)) :
  gather first tasks = Blocked → Blocked ∈ tasks.
Proof.
  induction tasks as [|o tasks IH]; [done|].
  destruct o as [a|msg|]; [| |intros _; apply list_elem_of_here].
  - intros H. apply list_elem_of_further, IH.
    unfold gather in *.
    change (omap raised_of (Returned a :: tasks))
      with (omap raised_of tasks) in H.
    destruct (omap raised_of tasks); [|done].
    cbn [forallb] in H.
    destruct (forallb _ tasks); [done|].
    by rewrite andb_false_r in H.
  - intros H. unfold gather in H.
    by change (omap raised_of (Raised msg :: tasks))
         with (msg :: omap raised_of tasks) in H.
Qed.

(** When no task raises and none is blocked, [asyncio.gather]
    returns. *)
Lemma gather_returns {A} first (tasks : list (outcome A)) :
  Forall (λ o, ∃ a, o = Returned a) tasks →
  ∃ results, gather first tasks = Returned results.
Proof.
  intros Hall.
  assert (∃ results, tasks = map Returned results) as [results ->].
  { induction Hall as [|o tasks [a ->] _ [results ->]]; [by exists []|].
    by exists (a :: results). }
  exists results. apply gather_returned.
Qed.

(** [scrape_all_pages] waits for ever only on a semaphore of 0. *)
Lemma scrape_all_pages_blocked S E max_pages :
  scrape_all_pages S E max_pages = Some Blocked → max_concurrent S = 0.
Proof.
  unfold scrape_all_pages.
  destruct (fetch_sitemap _ _ _ _) as [[found l]|]; [|done]. simpl.
  destruct found as [b| |msg]; try done.
  destruct (negb (ret_truthy (Returns b))); [done|].
  destruct (max_concurrent S <? 0); [done|].
  destruct (gather _ _) as [results|msg|] eqn:Hgather; try done.
  intros _. apply gather_blocked in Hgather.
  apply list_elem_of_fmap in Hgather as (u & Hu & _).
  unfold bounded_scrape in Hu.
  destruct (max_concurrent S =? 0) eqn:Hzero; [by apply Z.eqb_eq in Hzero|].
  by destruct (scrape_page_not_blocked S E u).
Qed.

(** [scrape_all_pages] returns when discovery does not raise, the limit
    of concurrent fetches is positive and no fetch raises. *)
Lemma scrape_all_pages_returns S E max_pages found l :
  fetch_sitemap (discovery E) (base_url S) max_pages [] = Some (found, l) →
  (∀ msg, found ≠ Raises msg) →
  0 < max_concurrent S →
  (∀ u msg, u ∈ to_fetch max_pages l → scrape_page S E u ≠ Raised msg) →
  ∃ r, scrape_all_pages S E max_pages = Some (Returned r).
Proof.
  intros Hfetch Hfound Hlimit Hpages. unfold scrape_all_pages.
  rewrite Hfetch. simpl.
  destruct found as [b| |msg]; [| by eexists | by destruct (Hfound msg)].
  destruct (negb (ret_truthy (Returns b))); [by eexists|].
  replace (max_concurrent S <? 0) with false by (symmetry; apply Z.ltb_ge; lia).
  fold (to_fetch max_pages l).
  destruct (gather_returns (first_raised E)
              (map (bounded_scrape S E) (to_fetch max_pages l)))
    as [results ->]; [|by eexists].
  apply Forall_forall. intros o (u & -> & Hu)%list_elem_of_fmap.
  unfold bounded_scrape.
  replace (max_concurrent S =? 0) with false
    by (symmetry; apply Z.eqb_neq; lia).
  pose proof (scrape_page_not_blocked S E u) as Hnb.
  pose proof (Hpages u) as Hnr.
  destruct (scrape_page S E u) as [a|msg|]; [by exists a | | done].
  by destruct (Hnr msg Hu).
Qed.

Lemma crawl_result_counts S E max_pages r :
  scrape_all_pages S E max_pages = Some (Returned (Some r)) →
  domain r = base_url S
  ∧ total_pages r = len (cr_pages r)
  ∧ total_chunks r = sum_Z (len ∘ chunks <$> cr_pages r)
  ∧ (0 ≤ max_pages → total_pages r ≤ max_pages).
Proof.
  intros (found & l & results & Hfetch & Hfound & Hmap & ->)
    %scrape_all_pages_unfold. simpl.
  destruct (scraped_records S E (to_fetch max_pages l) results Hmap)
    as (Hrec & _ & _).
  split_and!; [done|done| |].
  - f_equal. apply Forall_fmap_ext_1.
    eapply Forall_impl; [exact Hrec|]. by intros p [_ ?].
  - intros Hmax. pose proof (fetched_pages_cap max_pages l Hmax) as Hcap.
    pose proof (length_omap_le id results) as Hle.
    apply (f_equal length) in Hmap. rewrite !length_map in Hmap.
    unfold to_fetch, len in *. lia.
Qed.

Lemma scrape_website_cases W E url max_pages :
  ∃ o,
    scrape_website W E url max_pages = Some o
    ∧ (o = Blocked → ws_max_concurrent W = 0)
    ∧ (∀ r,
         o = Returned r →
         ∃ parts,
           urlparse E (with_scheme url) = VectorStore.Ok parts
           ∧ domain r = root_of parts
           ∧ total_pages r = len (cr_pages r)
           ∧ total_chunks r = sum_Z (len ∘ chunks <$> cr_pages r)
           ∧ (0 ≤ max_pages → total_pages r ≤ max_pages))
    ∧ (∀ parts S found l,
         urlparse E (with_scheme url) = VectorStore.Ok parts →
         new_site_scraper E (root_of parts) (ws_max_concurrent W)
           (ws_chunk_size W) = VectorStore.Ok S →
         fetch_sitemap (discovery (crawl E)) (root_of parts) max_pages []
         = Some (found, l) →
         (∀ msg, found ≠ Raises msg) →
         0 < ws_max_concurrent W →
         (∀ u msg, u ∈ to_fetch max_pages l →
                   scrape_page S (crawl E) u ≠ Raised msg) →
         ∃ r, o = Returned r).
Proof.
  unfold scrape_website.
  destruct (urlparse E (with_scheme url)) as [parts|msg] eqn:Hparts;
    [|by exists (Raised msg)].
  destruct (new_site_scraper E (root_of parts) (ws_max_concurrent W)
              (ws_chunk_size W)) as [S|msg] eqn:HS.
  2: { exists (Raised msg). split_and!; [done..|].
       intros parts0 S0 found l [= <-]. congruence. }
  assert (base_url S = root_of parts ∧ max_concurrent S = ws_max_concurrent W)
    as [Hbase Hlimit].
  { unfold new_site_scraper in HS.
    destruct (urlparse E (root_of parts)); by simplify_eq. }
  destruct (scrape_all_pages_total S (crawl E) max_pages) as [o Hrun].
  rewrite Hrun. simpl.
  assert (∀ found l,
            fetch_sitemap (discovery (crawl E)) (root_of parts) max_pages []
            = Some (found, l) →
            (∀ msg, found ≠ Raises msg) →
            0 < ws_max_concurrent W →
            (∀ u msg, u ∈ to_fetch max_pages l →
                      scrape_page S (crawl E) u ≠ Raised msg) →
            ∃ r, o = Returned r) as Hreturns.
  { intros found l Hfetch Hfound Hpos Hpages.
    destruct (scrape_all_pages_returns S (crawl E) max_pages found l)
      as [r Hr]; [by rewrite Hbase | done | by rewrite Hlimit | done |].
    exists r. congruence. }
  destruct o as [[r|]|msg|].
  - exists (Returned r). split_and!; [done|done| |by eexists].
    intros r' [= <-]. exists parts. split; [done|]. rewrite <- Hbase.
    by apply (crawl_result_counts S (crawl E)).
  - eexists. split_and!; [done|done| |by eexists].
    intros r' [= <-]. exists parts. by split_and!.
  - exists (Raised msg). split_and!; [done|done|done|].
    intros parts0 S0 found l [= <-] HS0 Hfetch Hfound Hpos Hpages.
    rewrite HS in HS0. injection HS0 as <-.
    by destruct (Hreturns found l).
  - exists Blocked. split_and!; [done| |done|].
    + intros _. rewrite <- Hlimit.
      by apply (scrape_all_pages_blocked S (crawl E) max_pages).
    + intros parts0 S0 found l [= <-] HS0 Hfetch Hfound Hpos Hpages.
      rewrite HS in HS0. injection HS0 as <-.
      by destruct (Hreturns found l).
Qed.



End SiteFacts.

(** ** Crawling and indexing *)

Section AppFacts.

Import VectorStore App.

Lemma split_on_head sep s : ∀ acc,
  Forall (λ c, c ≠ sep) acc →
  Forall (λ c, c ≠ sep) (default [] (head (split_on sep acc s))).
Proof.
  induction s as [|c s IH]; intros acc Hacc; simpl.
  - by apply Forall_rev.
  - destruct (c =? sep)%N eqn:Hc; simpl; [by apply Forall_rev|].
    apply IH. constructor; [by apply N.eqb_neq | done].
Qed.

Lemma replace_char a b s :
  Site.replace [a] [b] s = map (λ c, if (a =? c)%N then b else c) s.
Proof.
  unfold Site.replace. induction s as [|c s IH]; [done|]. simpl.
  assert (startswith s [] = true) as -> by (by destruct s).
  destruct (a =? c)%N; simpl; by rewrite IH.
Qed.

(** The part of a collection name that comes from the address holds
    neither a dot nor a slash. *)
Theorem collection_domain_clean url :
  Forall (λ c, c ≠ dot ∧ c ≠ slash) (collection_domain url).
Proof.
  unfold collection_domain. rewrite replace_char.
  apply Forall_fmap.
  eapply Forall_impl; [apply (split_on_head slash _ []); constructor|].
  intros c Hc. unfold compose. cbn beta in *.
  destruct (dot =? c)%N eqn:Hdot.
  - split; intros H; vm_compute in H; discriminate H.
  - apply N.eqb_neq in Hdot. split; [congruence | done].
Qed.

Lemma load_from_dict_extends E ps store :
  store `prefix_of` (load_from_dict E ps store).1.
Proof.
  unfold load_from_dict.
  assert (∀ starts st, st `prefix_of` (batch_loop E (build ps) starts st).1)
    as Hloop.
  { induction starts as [|i rest IH]; intros st; simpl; [done|].
    destruct (collection_add E _); [done|].
    etrans; [|apply IH]. by apply prefix_app_r. }
  specialize (Hloop (range_step (length (a_documents (build ps))) batch_size)
                store).
  by destruct (batch_loop E (build ps) _ store) as [st [msg|]].
Qed.

Lemma batch_all_accepted E ps store :
  (∀ batch, collection_add E batch = None) →
  load_from_dict E ps store = (store ++ ingest_documents ps, None).
Proof.
  intros Hadd. unfold load_from_dict.
  destruct (build_holds ps) as (Hd & Hm & Hi & _).
  rewrite batch_loop_all_added; [|done|..].
  - assert (zip3 (a_documents (build ps)) (a_metadatas (build ps))
              (a_ids (build ps)) = ingest_documents ps) as ->.
    { rewrite Hd, Hm, Hi. apply zip3_numbered. }
    assert (length (a_documents (build ps)) = length (ingest_documents ps))
      as ->.
    { rewrite Hd. unfold ingest_documents.
      by rewrite length_fmap, length_imap. }
    rewrite range_step_covers; [done|]. unfold batch_size. lia.
  - by rewrite Hd, Hm, !length_fmap.
  - by rewrite Hm, Hi, length_fmap, length_imap.
Qed.

Lemma scrape_website_counts E url max_pages :
  ∃ o, Site.scrape_website session_scraper E url max_pages = Some o
       ∧ o ≠ Orchestrator.Blocked
       ∧ ∀ r, o = Orchestrator.Returned r → 0 ≤ Orchestrator.total_pages r.
Proof.
  destruct (scrape_website_cases session_scraper E url max_pages)
    as (o & Hrun & Hblocked & Hresult & _).
  exists o. split_and!; [done| |].
  - intros Ho. by apply Hblocked in Ho.
  - intros r Hr. destruct (Hresult r Hr) as (_ & _ & _ & -> & _).
    unfold len. lia.
Qed.

(** What [scrape_and_load] does in every case.  It returns a result with
    at least one page, with the progress at 100 and the new store in the
    session, or it returns [None], with the progress at 0 and the store of
    the session as it was.  The key of the session is kept, no collection
    other than the new one is touched, and the documents that a collection
    of that name already held are kept in front. *)
Theorem scrape_and_load_outcome E s db url max_pages :
  ∃ res s' db',
    scrape_and_load E s db url max_pages = Some (res, s', db')
    ∧ openai_api_key s' = openai_api_key s
    ∧ (∀ n, n ≠ new_collection_name E url → db' !! n = db !! n)
    ∧ default [] (db !! new_collection_name E url)
      `prefix_of` default [] (db' !! new_collection_name E url)
    ∧ match res with
      | Some r =>
          0 < Orchestrator.total_pages r
          ∧ scrape_progress s' = 100
          ∧ vector_store s' = Some (new_collection_name E url)
          ∧ collection_name s' = Some (new_collection_name E url)
      | None => scrape_progress s' = 0 ∧ vector_store s' = vector_store s
      end.
Proof.
  unfold scrape_and_load.
  destruct (scrape_website_counts (site E) url max_pages)
    as (o & -> & Hnb & Hr). simpl.
  destruct o as [r|msg|]; [| |done].
  2: { eexists _, _, _. by repeat split. }
  specialize (Hr r eq_refl).
  destruct (Orchestrator.total_pages r =? 0) eqn:Hzero.
  { eexists _, _, _. by repeat split. }
  apply Z.eqb_neq in Hzero.
  set (name := new_collection_name E url).
  assert (∀ d : database, ∀ n, n ≠ name → get_or_create name d !! n = d !! n)
    as Hother.
  { intros d n Hn. unfold get_or_create. by rewrite lookup_insert_ne. }
  assert (∀ d : database,
            default [] (get_or_create name d !! name) = default [] (d !! name))
    as Hsame.
  { intros d. unfold get_or_create. by rewrite lookup_insert_eq. }
  unfold vector_store_init.
  destruct (effective_key E (openai_api_key s)) as [[|k0 k]|];
    try (eexists _, _, _; by repeat split).
  destruct (connect E name) as [[msg created]|].
  { eexists _, _, _. split; [done|]. split; [done|].
    destruct created; repeat split; try done.
    - intros n Hn. by apply Hother.
    - by rewrite Hsame. }
  rewrite Hsame.
  pose proof (load_from_dict_extends (engine E)
                (of_record <$> Orchestrator.cr_pages r)
                (default [] (db !! name))) as Hpre.
  destruct (load_from_dict (engine E) _ _) as [store [msg|]];
    simpl in Hpre;
    eexists _, _, _; (split; [done|]); (split; [done|]);
    (split; [intros n Hn; rewrite lookup_insert_ne by done; by apply Hother|]);
    (split; [by rewrite lookup_insert_eq|]); repeat split; try done; lia.
Qed.

(** When the crawl returns pages, a key is configured, the store can be
    opened and the engine accepts every batch, [scrape_and_load] returns
    the crawl result and the new collection holds, behind what a
    collection of that name held, the documents of the ingest rule for the
    pages of the result. *)
Theorem scrape_and_load_indexes E s db url max_pages r k0 k :
  Site.scrape_website session_scraper (site E) url max_pages
  = Some (Orchestrator.Returned r) →
  Orchestrator.total_pages r ≠ 0 →
  effective_key E (openai_api_key s) = Some (k0 :: k) →
  connect E (new_collection_name E url) = None →
  (∀ batch, collection_add (engine E) batch = None) →
  ∃ s',
    scrape_and_load E s db url max_pages
    = Some (Some r, s',
            <[new_collection_name E url :=
                default [] (db !! new_collection_name E url)
                ++ ingest_documents (of_record <$> Orchestrator.cr_pages r)]>
              (get_or_create (new_collection_name E url) db))
    ∧ vector_store s' = Some (new_collection_name E url)
    ∧ scrape_progress s' = 100.
Proof.
  intros Hrun Hpages Hkey Hconnect Hadd.
  unfold scrape_and_load. rewrite Hrun. simpl.
  apply Z.eqb_neq in Hpages. rewrite Hpages.
  unfold vector_store_init. cbn [openai_api_key]. rewrite Hkey, Hconnect.
  rewrite batch_all_accepted by done.
  unfold get_or_create at 1. rewrite lookup_insert_eq. simpl.
  eexists. by repeat split.
Qed.

Lemma scrape_and_load_indexes_witness :
  ∃ r s',
    Site.scrape_website session_scraper (site Examples.application)
      (py "ex.com/accueil") 2 = Some (Orchestrator.Returned r)
    ∧ scrape_and_load Examples.application Examples.new_session ∅
        (py "ex.com/accueil") 2
      = Some (Some r, s',
              <[new_collection_name Examples.application (py "ex.com/accueil") :=
                  default [] ((∅ : database)
                              !! new_collection_name Examples.application
                                   (py "ex.com/accueil"))
                  ++ ingest_documents (of_record <$> Orchestrator.cr_pages r)]>
                (get_or_create
                   (new_collection_name Examples.application (py "ex.com/accueil"))
                   ∅))
    ∧ vector_store s'
      = Some (new_collection_name Examples.application (py "ex.com/accueil"))
    ∧ scrape_progress s' = 100.
Proof.
  destruct (Site.scrape_website session_scraper (site Examples.application)
              (py "ex.com/accueil") 2) as [[r|msg|]|] eqn:Hrun;
    [|by vm_compute in Hrun..].
  assert (Orchestrator.total_pages r ≠ 0) as Hpages.
  { vm_compute in Hrun. injection Hrun as <-. by vm_compute. }
  destruct (scrape_and_load_indexes Examples.application Examples.new_session
              ∅ (py "ex.com/accueil") 2 r 115%N (py "k-test") Hrun Hpages)
    as (s' & Hs'); [reflexivity | reflexivity | reflexivity |].
  by exists r, s'.
Defined.

End AppFacts.

(** ** The configuration file *)

Section ConfigFacts.

Import Config.

(** A configuration file that is missing, or that cannot be read as
    JSON, gives the default configuration; when the file can be written
    the defaults replace what it held. *)
Theorem load_config_recovers E file :
  file ≫= json_load E = None →
  (load_config E file).1 = JObject (default_config E)
  ∧ (can_write E = true →
     ∀ text, json_dump E (default_config E) = Some text →
             (load_config E file).2 = Some text).
Proof.
  intros Hfile. unfold load_config. rewrite Hfile. split; [done|].
  intros Hw text Hdump. unfold save_config. by rewrite Hw, Hdump.
Qed.

Lemma load_config_recovers_witness :
  Some (py "{ not json") ≫= json_load Examples.unreadable_files = None
  ∧ (load_config Examples.unreadable_files (Some (py "{ not json"))).1
    = JObject (default_config Examples.unreadable_files)
  ∧ (can_write Examples.unreadable_files = true →
     ∀ text,
       json_dump Examples.unreadable_files
         (default_config Examples.unreadable_files) = Some text →
       (load_config Examples.unreadable_files (Some (py "{ not json"))).2
       = Some text).
Proof.
  split; [reflexivity|].
  by apply (load_config_recovers Examples.unreadable_files).
Defined.

(** After an [update_config] that returns [True], and when the text that
    was written reads back as the configuration that was written,
    [load_config] returns a configuration in which the key has the new
    value and every other key the value it had. *)
Theorem update_config_round_trip E key v file file' c :
  (load_config E file).1 = JObject c →
  update_config E key v file = Some (file', true) →
  (∀ text, json_dump E (<[key := v]> c) = Some text →
           json_load E text = Some (JObject (<[key := v]> c))) →
  ∃ c',
    (load_config E file').1 = JObject c'
    ∧ c' !! key = Some v
    ∧ ∀ k, k ≠ key → c' !! k = c !! k.
Proof.
  intros Hload Hupd Hrt. unfold update_config in Hupd.
  destruct (load_config E file) as [[c0|] file1]; [|done].
  simpl in Hload. injection Hload as ->.
  unfold save_config in Hupd.
  destruct (can_write E); [|by simplify_eq].
  destruct (json_dump E (<[key := v]> c)) as [text|] eqn:Hdump;
    [|by simplify_eq].
  simplify_eq. exists (<[key := v]> c).
  unfold load_config. simpl. rewrite (Hrt text eq_refl). simpl.
  split; [done|]. split; [apply lookup_insert_eq|].
  intros k Hk. by apply lookup_insert_ne.
Qed.

Lemma update_config_round_trip_witness :
  ∃ c',
    (load_config Examples.config_files (Some (py "{}"))).1 = JObject c'
    ∧ c' !! py "max_pages" = Some (VInt 20)
    ∧ ∀ k, k ≠ py "max_pages" → c' !! k = Config.defaults None !! k.
Proof.
  apply (update_config_round_trip Examples.config_files (py "max_pages")
           (VInt 20) None (Some (py "{}")) (Config.defaults None)).
  - reflexivity.
  - reflexivity.
  - intros text _. reflexivity.
Defined.

(** When the file cannot be written, [update_config] leaves it as it
    is: it raises on a file that holds JSON other than an object, and
    returns [False] in every other case. *)
Theorem update_config_read_only E key v file :
  can_write E = false →
  update_config E key v file
  = match file ≫= json_load E with
    | Some JOther => None
    | _ => Some (file, false)
    end.
Proof.
  intros Hw. unfold update_config, load_config, save_config. rewrite Hw.
  by destruct (file ≫= json_load E) as [[c|]|].
Qed.

Lemma update_config_read_only_witness :
  update_config
    (Env (λ _, Some (JObject (defaults None))) (λ _, Some (py "{}"))
       (λ _, []) false None)
    (py "max_pages") (VInt 20) (Some (py "{}"))
  = Some (Some (py "{}"), false)
  ∧ update_config
      (Env (λ _, Some JOther) (λ _, Some (py "{}")) (λ _, []) false None)
      (py "max_pages") (VInt 20) (Some (py "[]"))
    = None.
Proof.
  split.
  - by rewrite (update_config_read_only
                  (Env (λ _, Some (JObject (defaults None)))
                     (λ _, Some (py "{}")) (λ _, []) false None)).
  - by rewrite (update_config_read_only
                  (Env (λ _, Some JOther) (λ _, Some (py "{}")) (λ _, [])
                     false None)).
Defined.

End ConfigFacts.
